(** * Kapitan inventory core: discovery, lookup and lazy render dispatch

    A shallow embedding of [kapitan/inventory/inventory.py].  The Python
    class [Inventory] is a mutable object whose methods may raise; it is
    modelled by a state-and-exception monad over a [World] made of the
    object itself and a log of the calls it makes to its collaborators
    (the directory walk and the abstract render backend). *)

From stdpp Require Import base strings list gmap.
From Stdlib Require Import ZArith Ascii String.

Local Open Scope string_scope.
Local Open Scope list_scope.
Local Open Scope Z_scope.

(** ** Python strings and [os.path] *)

Module PyStr.

(** [s.rfind(c)] for a one-character needle: the highest index, or -1. *)
Fixpoint rfind_aux (c : ascii) (s : string) (i last : Z) : Z :=
  match s with
  | EmptyString => last
  | String a s' => rfind_aux c s' (i + 1) (if Ascii.eqb a c then i else last)
  end.

Definition rfind (c : ascii) (s : string) : Z := rfind_aux c s 0 (-1).

(** [s[:k]] and [s[k:]] for [0 <= k]. *)
Definition slice_to (s : string) (k : Z) : string :=
  substring 0 (Z.to_nat k) s.

Definition slice_from (s : string) (k : Z) : string :=
  substring (Z.to_nat k) (String.length s - Z.to_nat k) s.

(** [s[k:k+1] != c] *)
Definition char_differs (s : string) (k : Z) (c : ascii) : bool :=
  match String.get (Z.to_nat k) s with
  | Some a => negb (Ascii.eqb a c)
  | None => true
  end.

(** [s.replace(a, b)] for one-character [a] and [b]. *)
Fixpoint replace (a b : ascii) (s : string) : string :=
  match s with
  | EmptyString => EmptyString
  | String c s' => String (if Ascii.eqb c a then b else c) (replace a b s')
  end.

(** A [str] is a sequence of code points, held here as UTF-8 bytes: a
    byte [10xxxxxx] continues the code point of the byte before it. *)
Definition is_continuation (c : ascii) : bool :=
  let n := nat_of_ascii c in (128 <=? n)%nat && (n <? 192)%nat.

Definition starts_with_continuation (s : string) : bool :=
  match s with
  | String c _ => is_continuation c
  | EmptyString => false
  end.

(** [list(s)]: the code points of [s], in order. *)
Fixpoint code_points (s : string) : list string :=
  match s with
  | EmptyString => []
  | String c s' =>
      match code_points s' with
      | cp :: rest =>
          if starts_with_continuation cp then String c cp :: rest
          else String c EmptyString :: cp :: rest
      | [] => [String c EmptyString]
      end
  end.

(** [sep.join(parts)] *)
Fixpoint join (sep : string) (parts : list string) : string :=
  match parts with
  | [] => ""
  | [p] => p
  | p :: rest => p +:+ sep +:+ join sep rest
  end.

End PyStr.

Module OsPath.

Definition sep : ascii := "/"%char.
Definition extsep : ascii := "."%char.

(** The loop of [genericpath._splitext] that skips the leading dots of
    the last path component: it answers whether some character between
    [filenameIndex] and [dotIndex] is not a dot. *)
Fixpoint has_stem (p : string) (filenameIndex : Z) (steps : nat) : bool :=
  match steps with
  | O => false
  | S steps' =>
      if PyStr.char_differs p filenameIndex extsep then true
      else has_stem p (filenameIndex + 1) steps'
  end.

(** [os.path.splitext(p)] on a POSIX system. *)
Definition splitext (p : string) : string * string :=
  let sepIndex := PyStr.rfind sep p in
  let dotIndex := PyStr.rfind extsep p in
  if (sepIndex <? dotIndex)
     && has_stem p (sepIndex + 1) (Z.to_nat (dotIndex - (sepIndex + 1)))
  then (PyStr.slice_to p dotIndex, PyStr.slice_from p dotIndex)
  else (p, "").

(** [os.path.join(a, b)] on a POSIX system. *)
Definition join (a b : string) : string :=
  match b with
  | String c _ =>
      if Ascii.eqb c sep then b
      else if (a =? "")%string then b
      else if PyStr.char_differs a (Z.of_nat (String.length a) - 1) sep
           then a +:+ String sep EmptyString +:+ b
           else a +:+ b
  | EmptyString =>
      if (a =? "")%string then b
      else if PyStr.char_differs a (Z.of_nat (String.length a) - 1) sep
           then a +:+ String sep EmptyString
           else a
  end.

(** [os.path.relpath(os.path.join(root, file), top)] where [root] is a
    directory reached by [os.walk(top)]: [root] is carried as the list
    of directory names leading from [top] to it. *)
Definition relpath_join (root : list string) (file : string) : string :=
  PyStr.join (String sep EmptyString) (root ++ [file]).

End OsPath.

(** ** The file system seen by [os.walk] *)

#[warnings="-register-all"]
Inductive fsnode : Type :=
| File : fsnode
| Dir : list (string * fsnode) -> fsnode.

(** A function from path strings to the tree found there, if any. *)
Definition FileSystem := string -> option fsnode.

(** One [(root, dirs, files)] triple yielded by [os.walk]. *)
Record walk_entry := WalkEntry {
  w_root : list string;
  w_dirs : list string;
  w_files : list string
}.

Definition is_dir (n : fsnode) : bool :=
  match n with Dir _ => true | File => false end.

Definition dirnames (es : list (string * fsnode)) : list string :=
  map fst (filter (fun e => is_dir (snd e) = true) es).

Definition filenames (es : list (string * fsnode)) : list string :=
  map fst (filter (fun e => is_dir (snd e) = false) es).

(** Top-down walk: a directory is yielded before its sub-directories,
    which are visited in listing order.  A path that is not a directory
    yields nothing ([os.walk] swallows the [scandir] error). *)
Fixpoint walk_node (root : list string) (n : fsnode) : list walk_entry :=
  match n with
  | File => []
  | Dir es =>
      WalkEntry root (dirnames es) (filenames es) ::
      (fix walk_children (l : list (string * fsnode)) : list walk_entry :=
         match l with
         | [] => []
         | (nm, child) :: l' => walk_node (root ++ [nm]) child ++ walk_children l'
         end) es
  end.

Definition os_walk (fs : FileSystem) (top : string) : list walk_entry :=
  match fs top with
  | Some n => walk_node [] n
  | None => []
  end.

(** ** Python values, ordered dictionaries and exceptions *)

Inductive pyval : Type :=
| VNone
| VBool (b : bool)
| VInt (z : Z)
| VStr (s : string).

(** A [dict] with string keys: insertion ordered, one entry per key. *)
Module PyDict.

Definition t (V : Type) : Type := list (string * V).

Section Ops.
Context {V : Type}.

(** [d.get(k)] *)
Fixpoint get (k : string) (d : t V) : option V :=
  match d with
  | [] => None
  | (k', v) :: d' => if decide (k' = k) then Some v else get k d'
  end.

(** [d[k] = v]: an existing key keeps its position. *)
Fixpoint set (k : string) (v : V) (d : t V) : t V :=
  match d with
  | [] => [(k, v)]
  | (k', v') :: d' =>
      if decide (k' = k) then (k', v) :: d' else (k', v') :: set k v d'
  end.

Definition keys (d : t V) : list string := map fst d.
Definition values (d : t V) : list V := map snd d.

(** [bool(d)] *)
Definition truthy (d : t V) : bool :=
  match d with [] => false | _ :: _ => true end.

End Ops.

End PyDict.

Inductive Exception : Type :=
(** [InventoryError(f"Conflicting targets {name}: {path} and {other}. ...")] *)
| ConflictingTargets (name path other : string)
(** [InventoryError(f"targets not found: {missing}")] *)
| TargetsNotFound (missing : gset string)
| InventoryValidationError (msg : string)
| InvalidTargetError (msg : string)
| KeyError (key : string)
(** unpacking a sequence of [got] items into two variables *)
| ValueError (got : nat)
(** [str] object has no attribute [attr] *)
| AttributeError (attr : string)
| NotImplementedError.

(** The three classes at the bottom of the module form one hierarchy. *)
Definition is_InventoryError (e : Exception) : bool :=
  match e with
  | ConflictingTargets _ _ _ | TargetsNotFound _
  | InventoryValidationError _ | InvalidTargetError _ => true
  | _ => false
  end.

(** ** The data model *)

Record InventoryTarget := mkTarget {
  name : string;
  path : string;
  parameters : PyDict.t pyval;
  classes : list string;
  applications : list string;
  exports : list string
}.

(** [InventoryTarget(name=name, path=path)] *)
Definition new_target (name path : string) : InventoryTarget :=
  mkTarget name path [] [] [] [].

Record Inventory := mkInventory {
  inventory_path : string;
  initialised : bool;
  compose_target_name : bool;
  targets : PyDict.t InventoryTarget;
  targets_path : string;
  classes_path : string
}.

(** [Inventory(inventory_path=..., compose_target_name=...)] after the
    [post_update] validator has filled in the two derived paths. *)
Definition new_inventory (inventory_path : string) (compose : bool) : Inventory :=
  mkInventory inventory_path false compose []
    (OsPath.join inventory_path "targets") (OsPath.join inventory_path "classes").

Definition set_initialised (b : bool) (s : Inventory) : Inventory :=
  mkInventory (inventory_path s) b (compose_target_name s) (targets s)
    (targets_path s) (classes_path s).

Definition set_targets (d : PyDict.t InventoryTarget) (s : Inventory) : Inventory :=
  mkInventory (inventory_path s) (initialised s) (compose_target_name s) d
    (targets_path s) (classes_path s).

(** ** Calls to collaborators *)

Inductive Event : Type :=
| EvWalk (top : string)
| EvRender (batch : list InventoryTarget) (ignore_class_notfound : bool).

Record World := mkWorld {
  self : Inventory;
  calls : list Event
}.

(** ** The render backend

    [render_targets] is abstract: concrete backends live in subclasses.
    A backend reads the file system and the inventory, receives the
    batch, and mutates the records of the batch in place; it may also
    raise.  Its answer is the mutation it performs on each record of the
    batch and the exception it raises, if any (a failing backend may
    have mutated records already).  It does not touch the registry
    itself nor the records outside its batch. *)
Class RenderBackend := {
  render :
    FileSystem -> Inventory -> list InventoryTarget -> bool ->
    (InventoryTarget -> InventoryTarget) * option Exception
}.

(** ** Methods as state-and-exception computations *)

Inductive result (A : Type) : Type :=
| Ok (a : A)
| Raise (e : Exception).
Arguments Ok {A} a.
Arguments Raise {A} e.

Definition M (A : Type) : Type := World -> result A * World.

Definition ret {A} (a : A) : M A := fun w => (Ok a, w).

Definition bind {A B} (m : M A) (k : A -> M B) : M B :=
  fun w =>
    match m w with
    | (Ok a, w') => k a w'
    | (Raise e, w') => (Raise e, w')
    end.

Definition raise {A} (e : Exception) : M A := fun w => (Raise e, w).

(** [try: m  except KeyError: h] *)
Definition try_except_KeyError {A} (m : M A) (h : M A) : M A :=
  fun w =>
    match m w with
    | (Raise (KeyError _), w') => h w'
    | r => r
    end.

Definition gets {A} (f : Inventory -> A) : M A := fun w => (Ok (f (self w)), w).

Definition modify (f : Inventory -> Inventory) : M unit :=
  fun w => (Ok tt, mkWorld (f (self w)) (calls w)).

Definition emit (e : Event) : M unit :=
  fun w => (Ok tt, mkWorld (self w) (calls w ++ [e])).

Declare Scope py_scope.
Delimit Scope py_scope with py.
Notation "x <- m ;; k" := (bind m (fun x => k))
  (at level 100, m at next level, right associativity) : py_scope.
Notation "m ;; k" := (bind m (fun _ => k))
  (at level 100, right associativity) : py_scope.
Local Open Scope py_scope.

(** [for x in l: body(x)] *)
Fixpoint for_each {A} (l : list A) (body : A -> M unit) : M unit :=
  match l with
  | [] => ret tt
  | x :: l' => body x ;; for_each l' body
  end.

(** [d[k]] *)
Definition subscript {V} (d : PyDict.t V) (k : string) : M V :=
  match PyDict.get k d with
  | Some v => ret v
  | None => raise (KeyError k)
  end.

(** A record is a heap object shared by the registry, by the local
    dictionary [targets] of [get_targets] and by the batch handed to the
    backend.  Each record is held by one registry slot, so a reference to
    it is the key of that slot, and a mutation of the batch is a mutation
    of the registry at the keys of the batch. *)
Definition mutate_in_place (refs : list string)
    (mutation : InventoryTarget -> InventoryTarget)
    (s : Inventory) : Inventory :=
  set_targets
    (map (fun kt => if bool_decide (kt.1 ∈ refs) then (kt.1, mutation kt.2) else kt)
         (targets s)) s.

(** [not target.parameters] *)
Definition unrendered (t : InventoryTarget) : Prop :=
  PyDict.truthy (parameters t) = false.

#[global] Instance unrendered_dec t : Decision (unrendered t).
Proof. unfold unrendered. apply _. Defined.

(** The argument of [get_parameters] is [str | list[str]], and its
    result a parameters mapping or a mapping from names to those. *)
Inductive names_arg : Type :=
| OneName (target_name : string)
| NameList (target_names : list string).

Inductive parameters_result : Type :=
| Parameters (p : PyDict.t pyval)
| ParametersByName (d : PyDict.t (PyDict.t pyval)).

(** [for name, target in <iterable of str>]: a string unpacks into two
    variables when it has exactly two characters (code points). *)
Definition unpack_pair (item : string) : M (string * string) :=
  match PyStr.code_points item with
  | [a; b] => ret (a, b)
  | cps => raise (ValueError (List.length cps))
  end.

Section Methods.

Context `{backend : RenderBackend}.
Variable fs : FileSystem.

(** The name and extension of a definition file, in either mode. *)
Definition derive_name (compose : bool) (path file : string) : string * string :=
  if compose then
    let '(n, ext) := OsPath.splitext path in
    (PyStr.replace OsPath.sep "."%char n, ext)
  else OsPath.splitext file.

(** The body of the inner loop of [initialise]. *)
Definition scan_file (root : list string) (file : string) : M unit :=
  let p := OsPath.relpath_join root file in
  compose <- gets compose_target_name ;;
  let '(n, ext) := derive_name compose p file in
  if negb (bool_decide (ext ∈ [".yml"; ".yaml"])) then ret tt
  else
    let target := new_target n p in
    (* [self.targets.get(name)] is a record, which is truthy, or [None] *)
    found <- gets (fun s => PyDict.get target.(name) (targets s)) ;;
    match found with
    | Some other =>
        raise (ConflictingTargets target.(name) target.(path) other.(path))
    | None =>
        modify (fun s => set_targets (PyDict.set target.(name) target (targets s)) s)
    end.

Definition initialise : M bool :=
  done <- gets initialised ;;
  (if negb done then
     top <- gets targets_path ;;
     emit (EvWalk top) ;;
     for_each (os_walk fs top) (fun e =>
       for_each (w_files e) (scan_file (w_root e)) ;;
       modify (set_initialised true))
   else ret tt) ;;
  gets initialised.

(** The abstract method: the call is logged, the backend runs and its
    mutation lands on the records of the batch. *)
Definition render_targets (batch : PyDict.t InventoryTarget) (ignore : bool) : M unit :=
  emit (EvRender (PyDict.values batch) ignore) ;;
  s <- gets id ;;
  let '(mutation, failure) := render fs s (PyDict.values batch) ignore in
  modify (mutate_in_place (PyDict.keys batch) mutation) ;;
  match failure with
  | Some e => raise e
  | None => ret tt
  end.

(** [{target_name: self.targets[target_name] for target_name in target_names}] *)
Fixpoint targets_by_name (target_names : list string)
    (acc : PyDict.t InventoryTarget) : M (PyDict.t InventoryTarget) :=
  match target_names with
  | [] => ret acc
  | target_name :: rest =>
      reg <- gets targets ;;
      target <- subscript reg target_name ;;
      targets_by_name rest (PyDict.set target_name target acc)
  end.

(** The local [targets] of [get_targets] once the names are resolved. *)
Definition resolve (target_names : list string) (ignore_class_not_found : bool)
    : M (PyDict.t InventoryTarget) :=
  match target_names with
  | [] => gets targets
  | _ :: _ =>
      try_except_KeyError (targets_by_name target_names [])
        (if negb ignore_class_not_found then
           reg <- gets targets ;;
           raise (TargetsNotFound
                    (list_to_set target_names ∖ list_to_set (PyDict.keys reg)))
         else ret [])
  end.

(** [if not self.targets: self.initialise()] *)
Definition discover_if_empty : M unit :=
  reg <- gets targets ;;
  if negb (PyDict.truthy reg) then initialise ;; ret tt else ret tt.

Definition get_targets (target_names : list string) (ignore_class_not_found : bool)
    : M (PyDict.t InventoryTarget) :=
  discover_if_empty ;;
  targets' <- resolve target_names ignore_class_not_found ;;
  let targets_to_render := filter (fun kt => unrendered kt.2) targets' in
  (match targets_to_render with
   | [] => ret tt
   | _ :: _ => render_targets targets_to_render ignore_class_not_found
   end) ;;
  gets targets.

Definition get_target (target_name : string) (ignore_class_not_found : bool)
    : M InventoryTarget :=
  reg <- get_targets [target_name] ignore_class_not_found ;;
  subscript reg target_name.

Definition get_parameters (target_names : names_arg) (ignore_class_not_found : bool)
    : M parameters_result :=
  match target_names with
  | OneName target_name =>
      target <- get_target target_name ignore_class_not_found ;;
      ret (Parameters target.(parameters))
  | NameList target_names =>
      reg <- get_targets target_names false ;;
      for_each (PyDict.keys reg) (fun item =>
        nt <- unpack_pair item ;;
        (* [target] is a [str]: [target.parameters] has nothing to read *)
        raise (AttributeError "parameters")) ;;
      ret (ParametersByName [])
  end.

(** [migrate] is a hook that does nothing. *)
Definition migrate : M unit := ret tt.

(** The [inventory] property: the registry as it stands. *)
Definition inventory : M (PyDict.t InventoryTarget) := gets targets.

Definition __getitem__ (key : string) : M InventoryTarget :=
  reg <- inventory ;;
  subscript reg key.

End Methods.

(** ** Pure reading of the discovery loops *)

(** What the loop body makes of one file: the name and path of the
    record it builds, unless the extension sends it to [continue]. *)
Definition file_candidate (compose : bool) (root : list string) (file : string)
    : option (string * string) :=
  let p := OsPath.relpath_join root file in
  let '(n, ext) := derive_name compose p file in
  if bool_decide (ext ∈ [".yml"; ".yaml"]) then Some (n, p) else None.

(** The definition files of a walk, in the order the loops meet them. *)
Definition candidates (compose : bool) (walk : list walk_entry)
    : list (string * string) :=
  flat_map (fun e => omap (file_candidate compose (w_root e)) (w_files e)) walk.

(** Registering candidates one after the other until a name is taken. *)
Fixpoint register_all (cands : list (string * string))
    (reg : PyDict.t InventoryTarget)
    : PyDict.t InventoryTarget * option Exception :=
  match cands with
  | [] => (reg, None)
  | (n, p) :: rest =>
      match PyDict.get n reg with
      | Some other => (reg, Some (ConflictingTargets n p other.(path)))
      | None => register_all rest (PyDict.set n (new_target n p) reg)
      end
  end.

(** The unrendered records of a list of candidates. *)
Definition records (cands : list (string * string)) : PyDict.t InventoryTarget :=
  map (fun np => (np.1, new_target np.1 np.2)) cands.

Definition outcome (err : option Exception) : result unit :=
  match err with
  | None => Ok tt
  | Some e => Raise e
  end.

(** The batches of the render calls of a log. *)
Definition render_calls (log : list Event) : list (list InventoryTarget) :=
  omap (fun e => match e with EvRender batch _ => Some batch | EvWalk _ => None end) log.

Definition walk_calls (log : list Event) : list string :=
  omap (fun e => match e with EvWalk top => Some top | EvRender _ _ => None end) log.

(** ** Pure reading of name resolution and dispatch *)

(** The dictionary comprehension of [get_targets] as a function of the
    registry: the first absent name raises [KeyError]. *)
Fixpoint select (target_names : list string) (reg acc : PyDict.t InventoryTarget)
    : result (PyDict.t InventoryTarget) :=
  match target_names with
  | [] => Ok acc
  | target_name :: rest =>
      match PyDict.get target_name reg with
      | Some target => select rest reg (PyDict.set target_name target acc)
      | None => Raise (KeyError target_name)
      end
  end.

(** [resolve] as a function of the registry. *)
Definition resolved (target_names : list string) (ignore_class_not_found : bool)
    (reg : PyDict.t InventoryTarget) : result (PyDict.t InventoryTarget) :=
  match target_names with
  | [] => Ok reg
  | _ :: _ =>
      match select target_names reg [] with
      | Raise (KeyError _) =>
          if ignore_class_not_found then Ok []
          else Raise (TargetsNotFound
                        (list_to_set target_names ∖ list_to_set (PyDict.keys reg)))
      | r => r
      end
  end.

Section Readings.
Context `{backend : RenderBackend}.
Variable fs : FileSystem.

(** The world and result of the dispatch step, for the batch of a
    resolved subset [sel]. *)
Definition dispatched (sel : PyDict.t InventoryTarget) (ignore : bool) (w : World)
    : result (PyDict.t InventoryTarget) * World :=
  match filter (fun kt => unrendered kt.2) sel with
  | [] => (Ok (targets (self w)), w)
  | (_ :: _) as batch =>
      let mf := render fs (self w) (PyDict.values batch) ignore in
      let w' := mkWorld (mutate_in_place (PyDict.keys batch) mf.1 (self w))
                  (calls w ++ [EvRender (PyDict.values batch) ignore]) in
      (match mf.2 with Some e => Raise e | None => Ok (targets (self w')) end, w')
  end.

(** The local [targets] of a call at the time the batch is drawn from
    it; empty when the call has failed before. *)
Definition resolved_subset (target_names : list string) (ignore : bool) (w : World)
    : PyDict.t InventoryTarget :=
  match discover_if_empty fs w with
  | (Ok _, w1) =>
      match resolve target_names ignore w1 with
      | (Ok sel, _) => sel
      | (Raise _, _) => []
      end
  | (Raise _, _) => []
  end.

End Readings.

(** ** Concrete inventories *)

(** A file system holding one tree, at [top]. *)
Definition mount (top : string) (tree : fsnode) : FileSystem :=
  fun p => if decide (p = top) then Some tree else None.

(** The scenario of two definition files with one basename:
    [a.yml] and [sub/a.yml] under the targets root. *)
Definition same_basename_tree : fsnode :=
  Dir [("a.yml", File); ("sub", Dir [("a.yml", File)])].

Definition same_basename_fs : FileSystem :=
  mount "inventory/targets" same_basename_tree.

(** A freshly constructed inventory that has made no call yet. *)
Definition fresh_world (compose : bool) : World :=
  mkWorld (new_inventory "inventory" compose) [].

(** A stub backend: it marks every record of its batch as rendered. *)
Definition stub_render (t : InventoryTarget) : InventoryTarget :=
  mkTarget t.(name) t.(path) [("rendered", VBool true)]
    t.(classes) t.(applications) t.(exports).

Definition stub_backend : RenderBackend :=
  {| render := fun _ _ _ _ => (stub_render, None) |}.

(** One definition file, [a.yml]. *)
Definition single_target_fs : FileSystem :=
  mount "inventory/targets" (Dir [("a.yml", File)]).

Definition discovered_single : World :=
  mkWorld (set_initialised true
             (set_targets [("a", new_target "a" "a.yml")]
                (new_inventory "inventory" false)))
    [EvWalk "inventory/targets"].

(** The inventory of [a.yml] once [a] has been rendered by the stub. *)
Definition rendered_single : World :=
  mkWorld (set_initialised true
             (set_targets [("a", stub_render (new_target "a" "a.yml"))]
                (new_inventory "inventory" false)))
    [EvWalk "inventory/targets"; EvRender [new_target "a" "a.yml"] false].

(** A backend that rejects every batch and touches nothing. *)
Definition failing_backend : RenderBackend :=
  {| render := fun _ _ _ _ =>
       (id, Some (InvalidTargetError "class not found")) |}.

(** ** The records a request is about *)

(** The names of a request, each once, in the order of their first
    occurrence; [seen] holds the names met so far. *)
Fixpoint first_occurrences (seen target_names : list string) : list string :=
  match target_names with
  | [] => []
  | n :: rest =>
      if decide (n ∈ seen) then first_occurrences seen rest
      else n :: first_occurrences (seen ++ [n]) rest
  end.

(** The records whose rendering a request asks for: the whole registry
    for an empty list of names; for an explicit list, the records of the
    requested names when the registry holds them all, and none
    otherwise. *)
Definition requested_records (target_names : list string)
    (reg : PyDict.t InventoryTarget) : PyDict.t InventoryTarget :=
  match target_names with
  | [] => reg
  | _ :: _ =>
      if bool_decide (Forall (fun n => is_Some (PyDict.get n reg)) target_names)
      then omap (fun n => pair n <$> PyDict.get n reg)
             (first_occurrences [] target_names)
      else []
  end.

(** The subset of the requested names that the registry holds: the
    whole registry for an empty list of names. *)
Definition found_subset (target_names : list string)
    (reg : PyDict.t InventoryTarget) : PyDict.t InventoryTarget :=
  match target_names with
  | [] => reg
  | _ :: _ => omap (fun n => pair n <$> PyDict.get n reg) target_names
  end.




(** ** Claims in the specification's wording that the code departs from *)

(** Discovery over a path that is missing or empty leaves the flag
    false and returns false. *)
Definition spec_missing_or_empty_keeps_flag_false : Prop :=
  forall fs w,
    initialised (self w) = false ->
    (fs (targets_path (self w)) = None
     \/ fs (targets_path (self w)) = Some (Dir [])) ->
    exists w', initialise fs w = (Ok false, w') /\ initialised (self w') = false.

(** With the flag true, the records
    that were found and are still unrendered go to the backend. *)
Definition spec_ignore_missing_proceeds_with_found : Prop :=
  forall (backend : RenderBackend) fs target_names w w1,
    discover_if_empty fs w = (Ok tt, w1) ->
    (exists n, n ∈ target_names /\ PyDict.get n (targets (self w1)) = None) ->
    exists reg w2,
      get_targets fs target_names true w = (Ok reg, w2)
      /\ forall n t,
           n ∈ target_names ->
           PyDict.get n (targets (self w1)) = Some t ->
           unrendered t ->
           exists batch, batch ∈ render_calls (calls w2) /\ t ∈ batch.

(** ** Registries whose requested records are rendered *)

(** The records a call asks for, all those of the registry for an empty
    list of names, have parameters. *)
Definition requested_rendered (target_names : list string)
    (reg : PyDict.t InventoryTarget) : Prop :=
  match target_names with
  | [] => forall k t, (k, t) ∈ reg -> parameters t <> []
  | _ :: _ =>
      forall n, n ∈ target_names ->
                exists t, PyDict.get n reg = Some t /\ parameters t <> []
  end.

(** A backend that never raises and leaves every record it touches with
    parameters. *)
Definition fills_parameters (backend : RenderBackend) : Prop :=
  forall fs s batch ignore,
    (render fs s batch ignore).2 = None
    /\ forall t, parameters ((render fs s batch ignore).1 t) <> [].


(** A call that goes on submits, as one batch, the records of the found
    subset whose parameters are empty. *)
Definition spec_found_unrendered_are_submitted : Prop :=
  forall (backend : RenderBackend) fs target_names ignore w w1 reg w',
    discover_if_empty fs w = (Ok tt, w1) ->
    get_targets fs target_names ignore w = (Ok reg, w') ->
    render_calls (calls w')
    = render_calls (calls w1)
        ++ match filter unrendered
                   (PyDict.values (found_subset target_names (targets (self w1))))
           with
           | [] => []
           | (_ :: _) as batch => [batch]
           end.


(** * Properties *)

(** ** Ordered dictionaries *)

Module PyDictFacts.
Import PyDict.

Section Facts.
Context {V : Type}.
Implicit Types (d : t V) (k : string) (v : V).

Lemma get_None d k : get k d = None <-> k ∉ keys d.
Proof.
  induction d as [|[k' v'] d IH]; simpl.
  - split; [intros _; apply not_elem_of_nil | done].
  - case_decide as Hk.
    + subst. split; [done | intros []; left].
    + rewrite IH, not_elem_of_cons. split; [by intros | by intros [_ ?]].
Qed.

Lemma get_Some_elem d k v : get k d = Some v -> (k, v) ∈ d.
Proof.
  induction d as [|[k' v'] d IH]; simpl; [done |].
  case_decide; [intros [= ->]; subst; left | intros; right; auto].
Qed.

Lemma get_is_Some d k : is_Some (get k d) <-> k ∈ keys d.
Proof.
  rewrite <- not_eq_None_Some, get_None.
  split; [apply dec_stable | auto].
Qed.

Lemma elem_get_NoDup d k v : NoDup (keys d) -> (k, v) ∈ d -> get k d = Some v.
Proof.
  induction d as [|[k' v'] d IH]; simpl.
  - intros _ H. by apply elem_of_nil in H.
  - rewrite NoDup_cons. intros [Hk' Hnd] [[= -> ->] | Hin]%elem_of_cons.
    + by rewrite decide_True.
    + case_decide as Heq; [| auto]. subst.
      exfalso. apply Hk'. unfold keys. apply list_elem_of_fmap. by exists (k, v).
Qed.

Lemma get_set_eq d k v : get k (set k v d) = Some v.
Proof.
  induction d as [|[k' v'] d IH]; simpl.
  - by rewrite decide_True.
  - case_decide as Hk; simpl; [by rewrite decide_True | by rewrite decide_False].
Qed.

Lemma get_set_ne d k k' v : k ≠ k' -> get k' (set k v d) = get k' d.
Proof.
  intros Hne. induction d as [|[k0 v0] d IH]; simpl.
  - by rewrite decide_False.
  - case_decide as Hk; simpl.
    + subst. by rewrite !decide_False.
    + by rewrite IH.
Qed.

Lemma set_fresh d k v : k ∉ keys d -> set k v d = d ++ [(k, v)].
Proof.
  induction d as [|[k' v'] d IH]; simpl; [done |].
  rewrite not_elem_of_cons. intros [Hne Hnin].
  rewrite decide_False by done. by rewrite IH.
Qed.


Lemma keys_map_values (f : string * V -> string * V) d :
  (forall kv, (f kv).1 = kv.1) -> keys (map f d) = keys d.
Proof.
  intros Hf. unfold keys. rewrite map_map. apply map_ext. auto.
Qed.

End Facts.
End PyDictFacts.

(** ** Running the methods *)

Lemma set_targets_same s : set_targets (targets s) s = s.
Proof. by destruct s. Qed.

Lemma world_eta w : mkWorld (self w) (calls w) = w.
Proof. by destruct w. Qed.

(** Each primitive applied to a world. *)
Lemma bind_run {A B} (m : M A) (k : A -> M B) w :
  bind m k w =
  match m w with
  | (Ok a, w') => k a w'
  | (Raise e, w') => (Raise e, w')
  end.
Proof. done. Qed.

Lemma ret_run {A} (a : A) w : ret a w = (Ok a, w).
Proof. done. Qed.

Lemma raise_run {A} e w : raise (A:=A) e w = (Raise e, w).
Proof. done. Qed.

Lemma gets_run {A} (f : Inventory -> A) w : gets f w = (Ok (f (self w)), w).
Proof. done. Qed.

Lemma modify_run f w : modify f w = (Ok tt, mkWorld (f (self w)) (calls w)).
Proof. done. Qed.

Lemma emit_run e w : emit e w = (Ok tt, mkWorld (self w) (calls w ++ [e])).
Proof. done. Qed.

#[global] Arguments bind : simpl never.
#[global] Arguments ret : simpl never.
#[global] Arguments raise : simpl never.
#[global] Arguments gets : simpl never.
#[global] Arguments modify : simpl never.
#[global] Arguments emit : simpl never.

Ltac run_step :=
  first [ rewrite bind_run | rewrite ret_run | rewrite raise_run
        | rewrite gets_run | rewrite modify_run | rewrite emit_run ].

Ltac run := simpl; repeat (run_step; simpl).

(** The inner loop registers the candidates of one directory. *)
Lemma scan_files_spec root files w :
  for_each files (scan_file root) w =
  let r := register_all
             (omap (file_candidate (compose_target_name (self w)) root) files)
             (targets (self w)) in
  (outcome r.2, mkWorld (set_targets r.1 (self w)) (calls w)).
Proof.
  revert w. induction files as [|file files IH]; intros w; simpl.
  - run. by rewrite set_targets_same, world_eta.
  - pose proof (eq_refl (file_candidate (compose_target_name (self w)) root file)) as Hc.
    unfold file_candidate at 2 in Hc. rewrite Hc. clear Hc.
    rewrite bind_run. unfold scan_file at 1. run.
    destruct (derive_name _ _ file) as [n ext].
    case_bool_decide; run.
    + destruct (PyDict.get n (targets (self w))) as [other|] eqn:Hget; run.
      * by rewrite set_targets_same, world_eta.
      * rewrite IH. simpl. by destruct (register_all _ _) as [reg [e|]].
    + rewrite IH. by destruct (register_all _ _) as [reg [e|]].
Qed.

Lemma register_all_app a b reg :
  register_all (a ++ b) reg =
  match register_all a reg with
  | (reg', None) => register_all b reg'
  | failed => failed
  end.
Proof.
  revert reg. induction a as [|[n p] a IH]; intros reg; simpl; [done |].
  destruct (PyDict.get n reg); [done | apply IH].
Qed.

(** The outer loop registers the candidates of the whole walk; the flag
    it leaves is [flag]. *)
Lemma walk_spec walk w :
  let r := register_all (candidates (compose_target_name (self w)) walk)
             (targets (self w)) in
  exists flag,
    for_each walk
      (fun e => for_each (w_files e) (scan_file (w_root e)) ;;
                modify (set_initialised true)) w
    = (outcome r.2,
       mkWorld (set_initialised flag (set_targets r.1 (self w))) (calls w))
    /\ (r.2 = None ->
        flag = match walk with [] => initialised (self w) | _ :: _ => true end).
Proof.
  revert w. induction walk as [|e walk IH]; intros w; simpl.
  - exists (initialised (self w)). split; [| done].
    run. by destruct w as [[] ?].
  - unfold candidates in *; simpl. rewrite register_all_app.
    rewrite !bind_run, scan_files_spec. simpl.
    destruct (register_all (omap _ (w_files e)) _) as [reg1 [err|]] eqn:Hfirst; simpl.
    + exists (initialised (self w)). split; [| done].
      by destruct w as [[] ?].
    + set (w1 := mkWorld (set_initialised true (set_targets reg1 (self w))) (calls w)).
      destruct (IH w1) as (flag & Hrun & Hflag). subst w1. simpl in Hrun, Hflag.
      exists (match (register_all
                        (flat_map (fun e => omap (file_candidate
                           (compose_target_name (self w)) (w_root e)) (w_files e)) walk)
                        reg1).2 with
              | None => true | Some _ => flag end).
      split.
      * rewrite Hrun. f_equal.
        destruct (register_all _ reg1) as [reg2 [err|]]; simpl; [done |].
        simpl in Hflag. rewrite Hflag by done. by destruct walk.
      * intros Hnone. by rewrite Hnone.
Qed.

Lemma initialise_spec fs w :
  initialised (self w) = false ->
  let r := register_all
             (candidates (compose_target_name (self w))
                (os_walk fs (targets_path (self w))))
             (targets (self w)) in
  exists flag,
    initialise fs w
    = (match r.2 with None => Ok flag | Some e => Raise e end,
       mkWorld (set_initialised flag (set_targets r.1 (self w)))
         (calls w ++ [EvWalk (targets_path (self w))]))
    /\ (r.2 = None ->
        flag = match os_walk fs (targets_path (self w)) with
               | [] => false
               | _ :: _ => true
               end).
Proof.
  intros Hflag0 r. unfold initialise.
  run. rewrite Hflag0. run.
  set (w1 := mkWorld (self w) (calls w ++ [EvWalk (targets_path (self w))])).
  destruct (walk_spec (os_walk fs (targets_path (self w))) w1) as (flag & Hrun & Hf).
  subst w1. simpl in Hrun, Hf. rewrite Hrun. fold r.
  exists flag. split.
  - destruct (r.2); run; done.
  - intros Hnone. by rewrite (Hf Hnone), Hflag0.
Qed.

(** ** Registering candidates in an empty registry *)

Section Register.
Import PyDict PyDictFacts.
Implicit Types (l pre mid post cands : list (string * string)).

Lemma keys_records l : keys (records l) = map fst l.
Proof. unfold keys, records. rewrite map_map. done. Qed.

Lemma get_records_None l n : n ∉ map fst l -> get n (records l) = None.
Proof. intros. apply get_None. by rewrite keys_records. Qed.

Lemma get_records_Some l n p :
  NoDup (map fst l) -> (n, p) ∈ l -> get n (records l) = Some (new_target n p).
Proof.
  intros Hnd Hin. apply elem_get_NoDup; [by rewrite keys_records |].
  unfold records. apply list_elem_of_fmap. by exists (n, p).
Qed.

Lemma set_records l n p :
  n ∉ map fst l -> set n (new_target n p) (records l) = records (l ++ [(n, p)]).
Proof.
  intros Hn. rewrite set_fresh by (by rewrite keys_records).
  unfold records. by rewrite map_app.
Qed.

Lemma register_all_nodup pre cands :
  NoDup (map fst (pre ++ cands)) ->
  register_all cands (records pre) = (records (pre ++ cands), None).
Proof.
  revert pre. induction cands as [|[n p] cands IH]; intros pre Hnd; simpl.
  - by rewrite app_nil_r.
  - replace (pre ++ (n, p) :: cands) with ((pre ++ [(n, p)]) ++ cands) in *
      by (by rewrite <- app_assoc).
    assert (n ∉ map fst pre) as Hfresh.
    { rewrite !map_app in Hnd. apply NoDup_app in Hnd as [Hnd _].
      apply NoDup_app in Hnd as (_ & Hdisj & _).
      intros Hin. apply (Hdisj n Hin). simpl. left. }
    rewrite get_records_None, set_records by done. by apply IH.
Qed.

Lemma register_all_collision pre mid n p q post :
  NoDup (map fst (pre ++ mid)) -> (n, p) ∈ pre ++ mid ->
  register_all (mid ++ (n, q) :: post) (records pre)
  = (records (pre ++ mid), Some (ConflictingTargets n q p)).
Proof.
  intros Hnd Hin. rewrite register_all_app, register_all_nodup by done.
  simpl. by rewrite (get_records_Some _ _ p).
Qed.

(** A list of candidates with a repeated name has a first repetition. *)
Lemma first_collision pre cands :
  NoDup (map fst pre) -> ~ NoDup (map fst (pre ++ cands)) ->
  exists mid n q post p,
    cands = mid ++ (n, q) :: post
    /\ NoDup (map fst (pre ++ mid)) /\ (n, p) ∈ pre ++ mid.
Proof.
  revert pre. induction cands as [|[n q] cands IH]; intros pre Hpre Hdup.
  - by rewrite app_nil_r in Hdup.
  - destruct (decide (n ∈ map fst pre)) as [Hin | Hfresh].
    + apply list_elem_of_fmap in Hin as ([n' p] & -> & Hin).
      exists [], n', q, cands, p. by rewrite app_nil_r.
    + destruct (IH (pre ++ [(n, q)])) as (mid & n' & q' & post & p' & -> & Hnd & Hin).
      * rewrite map_app. apply NoDup_app. split_and!; [done | | apply NoDup_singleton].
        intros x Hx [->|[]%elem_of_nil]%elem_of_cons. done.
      * by rewrite <- app_assoc.
      * exists ((n, q) :: mid), n', q', post, p'.
        rewrite <- app_assoc in Hnd, Hin. done.
Qed.

Lemma repeated_name_not_NoDup l (i j : nat) n p q :
  (i < j)%nat -> l !! i = Some (n, p) -> l !! j = Some (n, q) ->
  ~ NoDup (map fst l).
Proof.
  intros Hij Hi Hj Hnd.
  assert (i = j); [| lia].
  eapply (NoDup_lookup _ i j n Hnd); rewrite list_lookup_fmap.
  - by rewrite Hi.
  - by rewrite Hj.
Qed.

End Register.

(** ** Name resolution *)

Lemma targets_by_name_run target_names acc w :
  targets_by_name target_names acc w = (select target_names (targets (self w)) acc, w).
Proof.
  revert acc. induction target_names as [|n rest IH]; intros acc; simpl; [done |].
  run. unfold subscript. destruct (PyDict.get n _); run; [apply IH | done].
Qed.

Lemma select_missing target_names reg acc n :
  n ∈ target_names -> PyDict.get n reg = None ->
  exists k, select target_names reg acc = Raise (KeyError k).
Proof.
  revert acc. induction target_names as [|m rest IH]; intros acc Hin Hnone; simpl.
  - by apply elem_of_nil in Hin.
  - destruct (PyDict.get m reg) as [t|] eqn:Hm; [| by eexists].
    apply elem_of_cons in Hin as [-> | Hin]; [congruence | by apply IH].
Qed.

Lemma select_present target_names reg acc :
  (forall n, n ∈ target_names -> is_Some (PyDict.get n reg)) ->
  exists sel,
    select target_names reg acc = Ok sel
    /\ forall k, PyDict.get k sel
                 = if decide (k ∈ target_names) then PyDict.get k reg
                   else PyDict.get k acc.
Proof.
  revert acc. induction target_names as [|m rest IH]; intros acc Hall; simpl.
  - by exists acc.
  - destruct (Hall m) as [t Ht]; [left |]. rewrite Ht.
    destruct (IH (PyDict.set m t acc)) as (sel & Hsel & Hget).
    { intros n Hn. apply Hall. by right. }
    exists sel. split; [done |]. intros k. rewrite Hget.
    destruct (decide (k ∈ rest)) as [Hk | Hk].
    + rewrite decide_True by (by right). done.
    + destruct (decide (k = m)) as [-> | Hne].
      * rewrite decide_True by left. by rewrite PyDictFacts.get_set_eq.
      * rewrite decide_False by (by apply not_elem_of_cons).
        by rewrite PyDictFacts.get_set_ne.
Qed.

Lemma select_raises_KeyError target_names reg acc e :
  select target_names reg acc = Raise e -> exists k, e = KeyError k.
Proof.
  revert acc. induction target_names as [|m rest IH]; intros acc; simpl; [done |].
  destruct (PyDict.get m reg); [apply IH | intros [= <-]; by eexists].
Qed.

Lemma resolve_run target_names ignore w :
  resolve target_names ignore w = (resolved target_names ignore (targets (self w)), w).
Proof.
  destruct target_names as [|n rest]; [done |].
  unfold resolve, resolved, try_except_KeyError.
  rewrite targets_by_name_run.
  destruct (select (n :: rest) _ []) as [sel | e] eqn:Hsel; [done |].
  destruct (select_raises_KeyError _ _ _ _ Hsel) as [k ->].
  destruct ignore; run; done.
Qed.

(** ** Lookup and dispatch *)

Section Dispatch.
Context `{backend : RenderBackend}.
Variable fs : FileSystem.

Lemma discover_nonempty w :
  PyDict.truthy (targets (self w)) = true -> discover_if_empty fs w = (Ok tt, w).
Proof. intros H. unfold discover_if_empty. run. rewrite H. by run. Qed.

Lemma discover_empty w :
  PyDict.truthy (targets (self w)) = false ->
  discover_if_empty fs w
  = match initialise fs w with
    | (Ok _, w1) => (Ok tt, w1)
    | (Raise e, w1) => (Raise e, w1)
    end.
Proof.
  intros H. unfold discover_if_empty. run. rewrite H. run.
  by destruct (initialise fs w) as [[] ?].
Qed.

Lemma render_targets_run batch ignore w :
  render_targets fs batch ignore w
  = let mf := render fs (self w) (PyDict.values batch) ignore in
    (outcome mf.2,
     mkWorld (mutate_in_place (PyDict.keys batch) mf.1 (self w))
       (calls w ++ [EvRender (PyDict.values batch) ignore])).
Proof.
  unfold render_targets. run.
  destruct (render fs (self w) _ ignore) as [mutation [e|]]; by run.
Qed.

Lemma get_targets_run target_names ignore w :
  get_targets fs target_names ignore w
  = match discover_if_empty fs w with
    | (Raise e, w1) => (Raise e, w1)
    | (Ok _, w1) =>
        match resolved target_names ignore (targets (self w1)) with
        | Raise e => (Raise e, w1)
        | Ok sel => dispatched fs sel ignore w1
        end
    end.
Proof.
  unfold get_targets. rewrite bind_run.
  destruct (discover_if_empty fs w) as [[[]|e] w1]; [| done].
  rewrite bind_run, resolve_run.
  destruct (resolved _ _ _) as [sel|e]; [| done].
  unfold dispatched. rewrite bind_run.
  destruct (filter _ sel) as [|kt batch] eqn:Hbatch; [by run |].
  rewrite render_targets_run. simpl.
  destruct (render fs (self w1) _ ignore) as [mutation [e|]]; by run.
Qed.

End Dispatch.

(** ** Logs *)

Lemma walk_calls_app l1 l2 : walk_calls (l1 ++ l2) = walk_calls l1 ++ walk_calls l2.
Proof. apply omap_app. Qed.

Lemma render_calls_app l1 l2 : render_calls (l1 ++ l2) = render_calls l1 ++ render_calls l2.
Proof. apply omap_app. Qed.

(** ** Discovery *)

(** A call to [get_targets] on an uninitialised inventory with an empty
    registry walks the targets path once, and leaves the inventory as it
    was when that walk yields nothing. *)
Lemma get_targets_rescans `{backend : RenderBackend} fs target_names ignore w :
  initialised (self w) = false ->
  targets (self w) = [] ->
  let w2 := (get_targets fs target_names ignore w).2 in
  walk_calls (calls w2) = walk_calls (calls w) ++ [targets_path (self w)]
  /\ (os_walk fs (targets_path (self w)) = [] -> self w2 = self w).
Proof.
  intros Hflag Hempty w2. subst w2.
  rewrite get_targets_run, discover_empty by (by rewrite Hempty).
  destruct (initialise_spec fs w Hflag) as (flag & -> & Hf). simpl in *.
  rewrite Hempty in *.
  destruct (register_all _ []) as [reg [e|]] eqn:Hreg; simpl in *.
  - split; [by rewrite !walk_calls_app |].
    intros Hnil. rewrite Hnil in Hreg. by simplify_eq.
  - specialize (Hf eq_refl).
    set (w1 := mkWorld (set_initialised flag (set_targets reg (self w)))
                 (calls w ++ [EvWalk (targets_path (self w))])).
    assert (forall sel, walk_calls (calls (dispatched fs sel ignore w1).2)
                        = walk_calls (calls w) ++ [targets_path (self w)]) as Hlog.
    { intros sel. unfold dispatched.
      destruct (filter _ sel); simpl; by rewrite !walk_calls_app, ?app_nil_r. }
    split.
    + destruct (resolved _ _ _); [apply Hlog | simpl; by rewrite !walk_calls_app].
    + intros Hnil. rewrite Hnil in *. simpl in Hreg. simplify_eq.
      assert (set_initialised false (set_targets [] (self w)) = self w) as Hself.
      { rewrite <- Hempty, <- Hflag. by destruct (self w). }
      subst w1. rewrite Hself.
      destruct target_names as [|n rest]; simpl.
      * unfold dispatched. simpl. rewrite ?Hempty. by simpl.
      * rewrite ?Hempty. simpl. destruct ignore; simpl; done.
Qed.


Lemma os_walk_missing fs top : fs top = None -> os_walk fs top = [].
Proof. unfold os_walk. by intros ->. Qed.

(** The walk yields nothing exactly when the path is missing or is not
    a directory. *)
Lemma os_walk_nil fs top :
  os_walk fs top = [] <-> fs top = None \/ fs top = Some File.
Proof.
  unfold os_walk. destruct (fs top) as [[|es]|]; simpl.
  - split; [by right | done].
  - split; [done | by intros [|]].
  - split; [by left | done].
Qed.

(** An existing directory always yields its own entry, even when it
    holds nothing. *)
Lemma os_walk_directory fs top es :
  fs top = Some (Dir es) -> exists rest,
    os_walk fs top = WalkEntry [] (dirnames es) (filenames es) :: rest.
Proof. unfold os_walk. intros ->. simpl. by eexists. Qed.

Example initialise_empty_directory :
  initialise (mount "inventory/targets" (Dir [])) (fresh_world false)
  = (Ok true,
     mkWorld (set_initialised true (new_inventory "inventory" false))
       [EvWalk "inventory/targets"]).
Proof. reflexivity. Qed.


(** An existing directory that holds nothing still yields its own entry:
    the flag is set, [initialise] returns true, and a later
    [get_targets] on the still empty registry walks nothing. *)
Lemma empty_directory_sets_flag :
  ~ spec_missing_or_empty_keeps_flag_false.
Proof.
  intros Hspec.
  destruct (Hspec (mount "inventory/targets" (Dir [])) (fresh_world false))
    as (w' & Hrun & _); [reflexivity | by right |].
  vm_compute in Hrun. discriminate Hrun.
Qed.

Example empty_directory_not_rescanned :
  let fs := mount "inventory/targets" (Dir []) in
  let w1 := (initialise fs (fresh_world false)).2 in
  targets (self w1) = []
  /\ walk_calls (calls (get_targets (backend := stub_backend) fs [] false w1).2)
     = walk_calls (calls w1).
Proof. split; reflexivity. Qed.

(** C2: the flag is already set when a collision shows up in a
    sub-directory: with [a.yml] and [sub/a.yml] in compact mode
    [initialise] raises the collision and leaves [initialised] true. *)
Theorem initialise_collision_leaves_flag_set :
  exists w',
    initialise same_basename_fs (fresh_world false)
    = (Raise (ConflictingTargets "a" "sub/a.yml" "a.yml"), w')
    /\ initialised (self w') = true
    /\ PyDict.keys (targets (self w')) = ["a"].
Proof. eexists. split_and!; reflexivity. Qed.

(** When the collision shows up in the first directory of the walk the
    flag is still false. *)
Example initialise_collision_in_first_directory :
  exists w',
    initialise (mount "inventory/targets" (Dir [("a.yml", File); ("a.yaml", File)]))
      (fresh_world false)
    = (Raise (ConflictingTargets "a" "a.yaml" "a.yml"), w')
    /\ initialised (self w') = false.
Proof. eexists. split; reflexivity. Qed.



(** The concrete scenario of C5 in both modes. *)
Example same_basename_compact :
  (initialise same_basename_fs (fresh_world false)).1
  = Raise (ConflictingTargets "a" "sub/a.yml" "a.yml").
Proof. reflexivity. Qed.

Example same_basename_composed :
  exists w',
    initialise same_basename_fs (fresh_world true) = (Ok true, w')
    /\ PyDict.keys (targets (self w')) = ["a"; "sub.a"].
Proof. eexists. split; reflexivity. Qed.

(** ** Missing names *)

Section Missing.
Context `{backend : RenderBackend}.
Variable fs : FileSystem.

Lemma resolved_missing target_names ignore reg n :
  n ∈ target_names -> PyDict.get n reg = None ->
  resolved target_names ignore reg
  = if ignore then Ok []
    else Raise (TargetsNotFound
                  (list_to_set target_names ∖ list_to_set (PyDict.keys reg))).
Proof.
  intros Hin Hnone.
  destruct (select_missing target_names reg [] n Hin Hnone) as [k Hk].
  destruct target_names as [|m rest]; [by apply elem_of_nil in Hin |].
  unfold resolved. by rewrite Hk.
Qed.

(** C7: when some requested name is absent from the registry and the
    flag is false, [get_targets] raises the lookup error, and the set it
    carries is exactly the set of requested names that the registry
    lacks. *)
Theorem get_targets_reports_missing target_names w w1 :
  discover_if_empty fs w = (Ok tt, w1) ->
  (exists n, n ∈ target_names /\ PyDict.get n (targets (self w1)) = None) ->
  exists missing,
    get_targets fs target_names false w = (Raise (TargetsNotFound missing), w1)
    /\ is_InventoryError (TargetsNotFound missing) = true
    /\ forall n, n ∈ missing
                 <-> n ∈ target_names /\ PyDict.get n (targets (self w1)) = None.
Proof.
  intros Hdisc (n & Hin & Hnone).
  exists (list_to_set target_names ∖ list_to_set (PyDict.keys (targets (self w1)))).
  split_and!; [| done |].
  - rewrite get_targets_run, Hdisc. by rewrite (resolved_missing _ _ _ n).
  - intros m. rewrite elem_of_difference, !elem_of_list_to_set.
    by rewrite PyDictFacts.get_None.
Qed.

(** C3, as amended: when some requested name is absent and the flag is
    true, [get_targets] raises nothing, but it resolves no name at all:
    it makes no call to the backend and returns the registry as it
    stands. *)
Theorem get_targets_ignoring_missing target_names w w1 :
  discover_if_empty fs w = (Ok tt, w1) ->
  (exists n, n ∈ target_names /\ PyDict.get n (targets (self w1)) = None) ->
  get_targets fs target_names true w = (Ok (targets (self w1)), w1).
Proof.
  intros Hdisc (n & Hin & Hnone).
  rewrite get_targets_run, Hdisc. by rewrite (resolved_missing _ _ _ n).
Qed.

End Missing.

Lemma get_targets_reports_missing_witness :
  exists missing,
    get_targets (backend := stub_backend) single_target_fs ["a"; "missing"] false
      (fresh_world false)
    = (Raise (TargetsNotFound missing), discovered_single)
    /\ is_InventoryError (TargetsNotFound missing) = true
    /\ forall n, n ∈ missing
                 <-> n ∈ ["a"; "missing"]
                     /\ PyDict.get n (targets (self discovered_single)) = None.
Proof.
  apply (get_targets_reports_missing (backend := stub_backend) single_target_fs
           ["a"; "missing"] (fresh_world false) discovered_single).
  - reflexivity.
  - exists "missing". split; [| reflexivity].
    apply list_elem_of_In. simpl. tauto.
Defined.

Lemma get_targets_ignoring_missing_witness :
  get_targets (backend := stub_backend) single_target_fs ["a"; "missing"] true
    (fresh_world false)
  = (Ok (targets (self discovered_single)), discovered_single).
Proof.
  apply (get_targets_ignoring_missing (backend := stub_backend) single_target_fs
           ["a"; "missing"] (fresh_world false) discovered_single).
  - reflexivity.
  - exists "missing". split; [| reflexivity].
    apply list_elem_of_In. simpl. tauto.
Defined.

(** With [a] discovered and unrendered, asking for [a] and for a name
    that does not exist sends nothing to the backend. *)
Lemma ignore_missing_skips_found_records :
  ~ spec_ignore_missing_proceeds_with_found.
Proof.
  intros Hspec.
  destruct (Hspec stub_backend single_target_fs ["a"; "missing"]
              (fresh_world false) discovered_single) as (reg & w2 & Hrun & Hsub).
  - reflexivity.
  - exists "missing". split; [| reflexivity].
    apply list_elem_of_In. simpl. tauto.
  - vm_compute in Hrun. injection Hrun as <- <-.
    destruct (Hsub "a" (new_target "a" "a.yml")) as (batch & Hbatch & _).
    + left.
    + reflexivity.
    + reflexivity.
    + vm_compute in Hbatch. by apply elem_of_nil in Hbatch.
Qed.

(** ** The batch handed to the backend *)

Section Batch.
Context `{backend : RenderBackend}.
Variable fs : FileSystem.

Lemma values_filter_unrendered (sel : PyDict.t InventoryTarget) :
  PyDict.values (filter (fun kt => unrendered kt.2) sel)
  = filter unrendered (PyDict.values sel).
Proof.
  unfold PyDict.values, PyDict.t in *.
  induction sel as [|[k t] sel IH]; [done |].
  rewrite filter_cons. simpl. rewrite filter_cons.
  destruct (decide (unrendered t)); simpl; by rewrite IH.
Qed.

Lemma discover_render_calls w :
  render_calls (calls (discover_if_empty fs w).2) = render_calls (calls w).
Proof.
  destruct (PyDict.truthy (targets (self w))) eqn:Hreg.
  - by rewrite discover_nonempty.
  - rewrite discover_empty by done.
    destruct (initialised (self w)) eqn:Hflag.
    + unfold initialise. run. rewrite Hflag. by run.
    + destruct (initialise_spec fs w Hflag) as (flag & -> & _).
      destruct (register_all _ _) as [reg [e|]]; simpl;
        by rewrite render_calls_app, app_nil_r.
Qed.


(** What the resolved subset is: the whole registry for an empty list,
    the records of the requested names when all are present. *)
Lemma resolved_subset_all ignore w w1 :
  discover_if_empty fs w = (Ok tt, w1) ->
  resolved_subset fs [] ignore w = targets (self w1).
Proof. unfold resolved_subset. by intros ->. Qed.

Lemma resolved_subset_present target_names ignore w w1 :
  discover_if_empty fs w = (Ok tt, w1) ->
  target_names ≠ [] ->
  (forall n, n ∈ target_names -> is_Some (PyDict.get n (targets (self w1)))) ->
  forall k, PyDict.get k (resolved_subset fs target_names ignore w)
            = if decide (k ∈ target_names) then PyDict.get k (targets (self w1))
              else None.
Proof.
  intros Hdisc Hne Hall k. unfold resolved_subset. rewrite Hdisc, resolve_run.
  destruct (select_present target_names (targets (self w1)) [] Hall) as (sel & Hsel & Hget).
  destruct target_names as [|n rest]; [done |].
  unfold resolved. rewrite Hsel. simpl. by rewrite Hget.
Qed.

End Batch.

(** ** What [get_targets] returns *)

Section Returned.
Context `{backend : RenderBackend}.
Variable fs : FileSystem.

Lemma keys_mutate_in_place refs mutation s :
  PyDict.keys (targets (mutate_in_place refs mutation s)) = PyDict.keys (targets s).
Proof.
  unfold mutate_in_place. simpl. apply PyDictFacts.keys_map_values.
  intros [k t]. simpl. by case_bool_decide.
Qed.

Lemma dispatched_keys sel ignore w reg w' :
  dispatched fs sel ignore w = (Ok reg, w') ->
  reg = targets (self w') /\ PyDict.keys reg = PyDict.keys (targets (self w)).
Proof.
  unfold dispatched. destruct (filter _ sel) as [|kt rest].
  - by intros [= <- <-].
  - destruct (render fs (self w) _ ignore) as [mutation [e|]]; simpl; [done |].
    intros [= <- <-]. simpl. split; [done |]. apply keys_mutate_in_place.
Qed.

Lemma register_all_keys cands reg reg' :
  register_all cands reg = (reg', None) ->
  PyDict.keys reg' = PyDict.keys reg ++ map fst cands.
Proof.
  revert reg. induction cands as [|[n p] cands IH]; intros reg; simpl.
  - intros [= <-]. by rewrite app_nil_r.
  - destruct (PyDict.get n reg) eqn:Hget; [done |].
    intros Hrest. rewrite (IH _ Hrest).
    apply PyDictFacts.get_None in Hget.
    rewrite PyDictFacts.set_fresh by done.
    unfold PyDict.keys. rewrite map_app. simpl. by rewrite <- app_assoc.
Qed.

Lemma get_targets_ok target_names ignore w reg w' :
  get_targets fs target_names ignore w = (Ok reg, w') ->
  reg = targets (self w')
  /\ exists w1,
       discover_if_empty fs w = (Ok tt, w1)
       /\ PyDict.keys reg = PyDict.keys (targets (self w1)).
Proof.
  rewrite get_targets_run. intros Hrun.
  destruct (discover_if_empty fs w) as [[[]|e] w1] eqn:Hdisc; [| done].
  destruct (resolved _ _ _) as [sel|e]; [| done].
  apply dispatched_keys in Hrun as [-> Hkeys].
  split; [done | by exists w1].
Qed.

Lemma discover_fresh_keys w w1 :
  initialised (self w) = false -> targets (self w) = [] ->
  discover_if_empty fs w = (Ok tt, w1) ->
  PyDict.keys (targets (self w1))
  = map fst (candidates (compose_target_name (self w))
               (os_walk fs (targets_path (self w)))).
Proof.
  intros Hflag Hempty Hdisc.
  rewrite discover_empty in Hdisc by (by rewrite Hempty).
  destruct (initialise_spec fs w Hflag) as (flag & Hinit & _).
  rewrite Hinit in Hdisc. rewrite Hempty in Hdisc.
  destruct (register_all _ []) as [reg1 [e|]] eqn:Hreg; simpl in Hdisc; [done |].
  injection Hdisc as <-. simpl. by rewrite (register_all_keys _ _ _ Hreg).
Qed.

(** C8: a successful [get_targets] returns the registry of the inventory
    itself, whatever names were asked for: its keys are the keys the
    registry had once discovery was done, and for a fresh inventory
    these are the names of all definition files of the walk. *)
Theorem get_targets_returns_registry target_names ignore w reg w' :
  get_targets fs target_names ignore w = (Ok reg, w') ->
  reg = targets (self w')
  /\ (exists w1,
        discover_if_empty fs w = (Ok tt, w1)
        /\ PyDict.keys reg = PyDict.keys (targets (self w1)))
  /\ (initialised (self w) = false -> targets (self w) = [] ->
      PyDict.keys reg
      = map fst (candidates (compose_target_name (self w))
                   (os_walk fs (targets_path (self w))))).
Proof.
  intros Hrun.
  destruct (get_targets_ok _ _ _ _ _ Hrun) as (Hreg & w1 & Hdisc & Hkeys).
  split_and!; [done | by exists w1 |].
  intros Hflag Hempty. rewrite Hkeys. by apply discover_fresh_keys.
Qed.

End Returned.

Lemma get_targets_returns_registry_witness :
  let w := fresh_world true in
  let r := get_targets (backend := stub_backend) same_basename_fs ["a"] false w in
  r.1 = Ok (targets (self r.2))
  /\ (exists w1,
        discover_if_empty same_basename_fs w = (Ok tt, w1)
        /\ PyDict.keys (targets (self r.2)) = PyDict.keys (targets (self w1)))
  /\ (initialised (self w) = false -> targets (self w) = [] ->
      PyDict.keys (targets (self r.2)) = ["a"; "sub.a"]).
Proof.
  intros w r.
  destruct (get_targets_returns_registry (backend := stub_backend) same_basename_fs
              ["a"] false w (targets (self r.2)) r.2) as (H1 & H2 & H3).
  - reflexivity.
  - split_and!; [reflexivity | exact H2 | exact H3].
Defined.

(** ** Parameter retrieval and indexing *)

Section Parameters.
Context `{backend : RenderBackend}.
Variable fs : FileSystem.

Lemma get_target_run target_name ignore w :
  get_target fs target_name ignore w
  = match get_targets fs [target_name] ignore w with
    | (Ok reg, w') =>
        (match PyDict.get target_name reg with
         | Some t => Ok t
         | None => Raise (KeyError target_name)
         end, w')
    | (Raise e, w') => (Raise e, w')
    end.
Proof.
  unfold get_target. rewrite bind_run.
  destruct (get_targets fs [target_name] ignore w) as [[reg|e] w']; [| done].
  unfold subscript. by destruct (PyDict.get target_name reg).
Qed.


(** The multi-name form iterates over the keys of the registry that
    [get_targets] returns: as soon as there is one, unpacking it or
    reading [parameters] off a string raises. *)
Lemma get_parameters_list_raises target_names ignore w reg w' :
  get_targets fs target_names false w = (Ok reg, w') ->
  reg ≠ [] ->
  exists e,
    get_parameters fs (NameList target_names) ignore w = (Raise e, w')
    /\ (e = AttributeError "parameters" \/ exists got, e = ValueError got).
Proof.
  intros Hrun Hne. unfold get_parameters. rewrite bind_run, Hrun.
  destruct reg as [|[k t] reg]; [done |]. simpl. rewrite !bind_run.
  unfold unpack_pair.
  destruct (PyStr.code_points k) as [|a [|b [|c cps]]]; run; eauto.
Qed.

End Parameters.


(** C1: on a registry holding the one target [a], asking for the
    parameters of the list [["a"]] renders [a] and then raises while
    unpacking the key [a]; no mapping is returned. *)
Theorem get_parameters_list_fails :
  exists w',
    get_parameters (backend := stub_backend) single_target_fs
      (NameList ["a"]) false (fresh_world false)
    = (Raise (ValueError 1), w')
    /\ PyDict.get "a" (targets (self w')) = Some (stub_render (new_target "a" "a.yml")).
Proof. eexists. split; reflexivity. Qed.

(** With a two-character name the unpacking goes through and the read
    of [parameters] off a one-character string raises. *)
Example get_parameters_list_two_characters :
  (get_parameters (backend := stub_backend)
     (mount "inventory/targets" (Dir [("ab.yml", File)]))
     (NameList ["ab"]) false (fresh_world false)).1
  = Raise (AttributeError "parameters").
Proof. reflexivity. Qed.

(** C4: indexing a fresh inventory by the name of a definition file
    raises [KeyError] without walking or rendering, although
    [get_targets] on that name followed by indexing yields the rendered
    record; once discovery has run, indexing yields the record still
    unrendered. *)
Theorem getitem_neither_discovers_nor_renders :
  __getitem__ "a" (fresh_world false) = (Raise (KeyError "a"), fresh_world false)
  /\ (get_target (backend := stub_backend) single_target_fs "a" false
        (fresh_world false)).1
     = Ok (stub_render (new_target "a" "a.yml"))
  /\ __getitem__ "a" discovered_single
     = (Ok (new_target "a" "a.yml"), discovered_single)
  /\ (get_target (backend := stub_backend) single_target_fs "a" false
        discovered_single).1
     = Ok (stub_render (new_target "a" "a.yml")).
Proof. split_and!; reflexivity. Qed.

(** * Further properties of the module *)

(** ** What discovery does to the registry *)

Section Discovery.
Import PyDict PyDictFacts.

(** Registration only appends: the registry it leaves is the one it
    found followed by the records of a prefix of the candidates, the
    whole list when no name was taken. *)
Lemma register_all_appends cands reg :
  exists k : nat,
    (register_all cands reg).1 = reg ++ records (take k cands)
    /\ (k <= List.length cands)%nat
    /\ ((register_all cands reg).2 = None -> k = List.length cands).
Proof.
  revert reg. induction cands as [|[n p] cands IH]; intros reg; simpl.
  - exists 0%nat. by rewrite app_nil_r.
  - destruct (get n reg) as [other|] eqn:Hget; simpl.
    + exists 0%nat. rewrite app_nil_r. split_and!; [done | lia | done].
    + apply get_None in Hget. rewrite (set_fresh _ _ _ Hget).
      destruct (IH (reg ++ [(n, new_target n p)])) as (k & Hreg & Hk & Hall).
      exists (S k). rewrite Hreg. simpl. rewrite <- app_assoc.
      split_and!; [done | lia | intros H; by rewrite Hall].
Qed.

(** The only failure of registration is the conflict between a
    candidate and a record the registry holds under its name. *)
Lemma register_all_conflict cands reg reg' e :
  register_all cands reg = (reg', Some e) ->
  exists n p other,
    e = ConflictingTargets n p other.(path)
    /\ get n reg' = Some other
    /\ (n, p) ∈ cands.
Proof.
  revert reg. induction cands as [|[n p] cands IH]; intros reg; simpl; [done |].
  destruct (get n reg) as [other|] eqn:Hget.
  - intros [= <- <-]. exists n, p, other. split_and!; [done | done | left].
  - intros Hrest. destruct (IH _ Hrest) as (n' & p' & other & -> & Hother & Hin).
    exists n', p', other. split_and!; [done | done | by right].
Qed.

Lemma register_all_fresh_iff cands :
  (register_all cands []).2 = None <-> NoDup (map fst cands).
Proof.
  split.
  - intros Hok. destruct (decide (NoDup (map fst cands))) as [|Hdup]; [done |].
    destruct (first_collision [] cands) as (mid & n & q & post & p & -> & Hnd & Hin);
      [apply NoDup_nil_2 | done |].
    change (@nil (string * InventoryTarget)) with (records []) in Hok.
    by rewrite (register_all_collision [] mid n p q post) in Hok.
  - intros Hnd.
    change (@nil (string * InventoryTarget)) with (records []).
    by rewrite (register_all_nodup [] cands).
Qed.

(** Where a candidate comes from: a file of the walk whose extension is
    one of the two recognised ones. *)
Lemma elem_of_candidates compose walk n p :
  (n, p) ∈ candidates compose walk <->
  exists e file ext,
    e ∈ walk /\ file ∈ w_files e
    /\ p = OsPath.relpath_join (w_root e) file
    /\ derive_name compose p file = (n, ext)
    /\ (ext = ".yml" \/ ext = ".yaml").
Proof.
  unfold candidates. rewrite list_elem_of_In, in_flat_map. split.
  - intros (e & He & Hin). apply list_elem_of_In in He, Hin.
    apply list_elem_of_omap in Hin as (file & Hfile & Hc).
    unfold file_candidate in Hc.
    destruct (derive_name _ _ file) as [n' ext] eqn:Hd.
    case_bool_decide as Hext; [| done]. injection Hc as <- <-.
    exists e, file, ext. split_and!; [done | done | done | done |].
    apply elem_of_cons in Hext as [-> | Hext]; [by left |].
    apply list_elem_of_singleton in Hext as ->. by right.
  - intros (e & file & ext & He & Hfile & -> & Hd & Hext).
    exists e. split; [by apply list_elem_of_In |].
    apply list_elem_of_In, list_elem_of_omap. exists file. split; [done |].
    unfold file_candidate. rewrite Hd.
    rewrite bool_decide_eq_true_2; [done |].
    destruct Hext as [-> | ->]; [left | right; left].
Qed.

End Discovery.

Section Initialise.
Import PyDict PyDictFacts.
Variable fs : FileSystem.

Lemma initialise_done w :
  initialised (self w) = true -> initialise fs w = (Ok true, w).
Proof. intros Hflag. unfold initialise. run. rewrite Hflag. run. by rewrite Hflag. Qed.

Lemma initialise_returns_flag w b w' :
  initialise fs w = (Ok b, w') -> initialised (self w') = b.
Proof.
  destruct (initialised (self w)) eqn:Hflag.
  - rewrite initialise_done by done. by intros [= <- <-].
  - destruct (initialise_spec fs w Hflag) as (flag & -> & _).
    destruct (register_all _ _) as [reg [e|]]; simpl; [done |].
    by intros [= <- <-].
Qed.

(** The registry after [initialise], whatever its outcome. *)
Lemma initialise_registry w :
  exists k : nat,
    targets (self (initialise fs w).2)
    = targets (self w)
        ++ records (take k (candidates (compose_target_name (self w))
                              (os_walk fs (targets_path (self w))))).
Proof.
  destruct (initialised (self w)) eqn:Hflag.
  - exists 0%nat. rewrite initialise_done by done. simpl. by rewrite app_nil_r.
  - destruct (initialise_spec fs w Hflag) as (flag & -> & _). simpl.
    destruct (register_all_appends
                (candidates (compose_target_name (self w))
                   (os_walk fs (targets_path (self w))))
                (targets (self w))) as (k & Hreg & _).
    by exists k.
Qed.

(** X1: on a fresh inventory [initialise] succeeds exactly when the
    definition files of the walk derive pairwise distinct names; it then
    registers one unrendered record per file, in walk order, and returns
    the flag, which is true as soon as the walk visited a directory. *)
Theorem initialise_fresh_outcome w :
  initialised (self w) = false ->
  targets (self w) = [] ->
  let walk := os_walk fs (targets_path (self w)) in
  let cands := candidates (compose_target_name (self w)) walk in
  ((exists b w', initialise fs w = (Ok b, w')) <-> NoDup (map fst cands))
  /\ (NoDup (map fst cands) ->
      exists w',
        initialise fs w = (Ok (initialised (self w')), w')
        /\ targets (self w') = records cands
        /\ initialised (self w') = match walk with [] => false | _ :: _ => true end).
Proof.
  intros Hflag Hempty walk cands.
  destruct (initialise_spec fs w Hflag) as (flag & Hrun & Hf).
  fold walk cands in Hrun, Hf. rewrite Hempty in Hrun, Hf.
  pose proof (register_all_fresh_iff cands) as Hiff.
  split.
  - rewrite <- Hiff. rewrite Hrun. split.
    + destruct (register_all cands []).2; [by intros (b & w' & Hok) | done].
    + intros Hnone. rewrite Hnone. by eexists _, _.
  - intros Hnd. apply Hiff in Hnd as Hnone. rewrite Hnone in Hrun.
    rewrite Hrun.
    exists (mkWorld (set_initialised flag
                       (set_targets (register_all cands []).1 (self w)))
              (calls w ++ [EvWalk (targets_path (self w))])).
    split_and!; [done | | simpl; by apply Hf].
    simpl. change (@nil (string * InventoryTarget)) with (records []).
    by rewrite (register_all_nodup [] cands).
Qed.

(** X2: the only exception [initialise] raises is the conflict error,
    and it always pairs a definition file of the walk with a record that
    the registry holds under the name the file derives. *)
Theorem initialise_raises_only_conflicts w e w' :
  initialise fs w = (Raise e, w') ->
  exists n p other,
    e = ConflictingTargets n p other.(path)
    /\ get n (targets (self w')) = Some other
    /\ (n, p) ∈ candidates (compose_target_name (self w))
                 (os_walk fs (targets_path (self w))).
Proof.
  destruct (initialised (self w)) eqn:Hflag.
  - by rewrite initialise_done.
  - destruct (initialise_spec fs w Hflag) as (flag & -> & _).
    destruct (register_all _ _) as [reg [e'|]] eqn:Hreg; simpl; [| done].
    intros [= <- <-]. simpl. by apply (register_all_conflict _ _ _ _ Hreg).
Qed.

(** X3: [initialise] never removes, reorders or replaces an entry of the
    registry: what it leaves, on success and on failure alike, is the
    registry it found followed by fresh unrendered records of the first
    definition files of the walk; the configuration fields are kept. *)
Theorem initialise_only_appends w :
  let w' := (initialise fs w).2 in
  (exists k : nat,
     targets (self w')
     = targets (self w)
         ++ records (take k (candidates (compose_target_name (self w))
                               (os_walk fs (targets_path (self w))))))
  /\ inventory_path (self w') = inventory_path (self w)
  /\ compose_target_name (self w') = compose_target_name (self w)
  /\ targets_path (self w') = targets_path (self w)
  /\ classes_path (self w') = classes_path (self w).
Proof.
  intros w'. split; [apply initialise_registry |]. subst w'.
  destruct (initialised (self w)) eqn:Hflag.
  - by rewrite initialise_done.
  - by destruct (initialise_spec fs w Hflag) as (flag & -> & _).
Qed.

(** X4: every entry of the registry after [initialise] was there before
    or is the unrendered record of a file of the walk whose extension is
    [.yml] or [.yaml], stored under the name the file derives; a file
    with any other extension never makes it into the registry. *)
Theorem initialise_registers_only_definition_files w k t :
  (k, t) ∈ targets (self (initialise fs w).2) ->
  (k, t) ∈ targets (self w)
  \/ exists e file ext,
       e ∈ os_walk fs (targets_path (self w))
       /\ file ∈ w_files e
       /\ derive_name (compose_target_name (self w))
            (OsPath.relpath_join (w_root e) file) file = (k, ext)
       /\ (ext = ".yml" \/ ext = ".yaml")
       /\ t = new_target k (OsPath.relpath_join (w_root e) file).
Proof.
  destruct (initialise_registry w) as (i & ->).
  rewrite elem_of_app. intros [Hold | Hnew]; [by left | right].
  unfold records in Hnew. apply list_elem_of_fmap in Hnew as ([n p] & [= -> ->] & Hin).
  apply elem_of_take in Hin as (j & Hj & _).
  apply list_elem_of_lookup_2, elem_of_candidates in Hj
    as (e & file & ext & He & Hfile & -> & Hd & Hext).
  by exists e, file, ext.
Qed.

(** X5: once [initialise] has returned true, calling it again returns
    true and changes nothing, whatever the file system has become. *)
Theorem initialise_again_is_noop w w' fs' :
  initialise fs w = (Ok true, w') ->
  initialise fs' w' = (Ok true, w').
Proof.
  intros Hrun. apply initialise_returns_flag in Hrun.
  unfold initialise. run. rewrite Hrun. run. by rewrite Hrun.
Qed.

End Initialise.

(** ** Names in the two modes *)

Lemma candidates_app compose l1 l2 :
  candidates compose (l1 ++ l2) = candidates compose l1 ++ candidates compose l2.
Proof. unfold candidates. apply flat_map_app. Qed.

Lemma not_NoDup_segments {A} (x : A) (l0 l1 l2 l3 l4 : list A) :
  x ∈ l1 -> x ∈ l3 -> ~ NoDup (l0 ++ l1 ++ l2 ++ l3 ++ l4).
Proof.
  intros H1 H3 Hnd.
  apply NoDup_app in Hnd as (_ & _ & Hnd).
  apply NoDup_app in Hnd as (_ & Hdisj & _).
  apply (Hdisj x H1). rewrite !elem_of_app. auto.
Qed.

(** On a fresh inventory a repeated candidate name makes [initialise]
    raise the conflict error. *)
Lemma initialise_fresh_duplicate fs w :
  initialised (self w) = false ->
  targets (self w) = [] ->
  ~ NoDup (map fst (candidates (compose_target_name (self w))
                      (os_walk fs (targets_path (self w))))) ->
  exists n p other w',
    initialise fs w = (Raise (ConflictingTargets n p other.(path)), w').
Proof.
  intros Hflag Hempty Hdup.
  destruct (initialise_spec fs w Hflag) as (flag & Hrun & _).
  rewrite Hempty in Hrun.
  destruct (register_all _ []) as [reg [e|]] eqn:Hreg; simpl in Hrun.
  - destruct (register_all_conflict _ _ _ _ Hreg) as (n & p & other & -> & _).
    by eexists n, p, other, _.
  - exfalso. apply Hdup. apply register_all_fresh_iff. by rewrite Hreg.
Qed.

(** X6: in compact mode the directory plays no part in the name: when
    one definition file name shows up in two directories of the walk, a
    fresh inventory cannot be initialised. *)
Theorem compact_same_file_name_collides fs w (i j : nat) e1 e2 file stem ext :
  initialised (self w) = false ->
  targets (self w) = [] ->
  compose_target_name (self w) = false ->
  (i < j)%nat ->
  os_walk fs (targets_path (self w)) !! i = Some e1 ->
  os_walk fs (targets_path (self w)) !! j = Some e2 ->
  file ∈ w_files e1 ->
  file ∈ w_files e2 ->
  OsPath.splitext file = (stem, ext) ->
  ext = ".yml" \/ ext = ".yaml" ->
  exists n p other w',
    initialise fs w = (Raise (ConflictingTargets n p other.(path)), w').
Proof.
  intros Hflag Hempty Hcompact Hij Hi Hj Hf1 Hf2 Hsplit Hext.
  apply initialise_fresh_duplicate; [done | done |].
  rewrite Hcompact.
  set (walk := os_walk fs (targets_path (self w))) in *.
  assert (forall e, file ∈ w_files e -> stem ∈ map fst (candidates false [e])) as Hstem.
  { intros e He. apply list_elem_of_fmap.
    exists (stem, OsPath.relpath_join (w_root e) file). split; [done |].
    apply elem_of_candidates. exists e, file, ext.
    split_and!; [left | done | done | done | done]. }
  rewrite <- (take_drop_middle walk i e1 Hi).
  assert (drop (S i) walk !! (j - S i)%nat = Some e2) as Hj'.
  { rewrite lookup_drop. by replace (S i + (j - S i))%nat with j by lia. }
  rewrite <- (take_drop_middle _ _ _ Hj').
  change (e1 :: ?l) with ([e1] ++ l).
  change (e2 :: ?l) with ([e2] ++ l).
  rewrite !candidates_app, !map_app.
  apply (not_NoDup_segments stem); auto.
Qed.

(** ** Walks triggered by [get_targets] *)

Section Walks.
Context `{backend : RenderBackend}.
Variable fs : FileSystem.

Lemma after_discovery_walks target_names ignore w1 :
  walk_calls (calls (match resolved target_names ignore (targets (self w1)) with
                     | Ok sel => dispatched fs sel ignore w1
                     | Raise e => (Raise e, w1)
                     end).2)
  = walk_calls (calls w1).
Proof.
  destruct (resolved _ _ _) as [sel|e]; [| done].
  unfold dispatched. destruct (filter _ sel); simpl; [done |].
  by rewrite walk_calls_app, app_nil_r.
Qed.

(** X7: a call to [get_targets] walks the targets path at most once,
    and exactly when the registry is empty and the inventory is not yet
    initialised; a non-empty registry is never scanned again. *)
Theorem get_targets_walks target_names ignore w :
  walk_calls (calls (get_targets fs target_names ignore w).2)
  = walk_calls (calls w)
      ++ (if PyDict.truthy (targets (self w)) || initialised (self w)
          then [] else [targets_path (self w)]).
Proof.
  rewrite get_targets_run.
  destruct (PyDict.truthy (targets (self w))) eqn:Hreg; simpl.
  - rewrite discover_nonempty by done.
    by rewrite after_discovery_walks, app_nil_r.
  - rewrite discover_empty by done.
    destruct (initialised (self w)) eqn:Hflag.
    + rewrite initialise_done by done.
      by rewrite after_discovery_walks, app_nil_r.
    + destruct (initialise_spec fs w Hflag) as (flag & -> & _).
      set (w1 := mkWorld _ _).
      assert (walk_calls (calls w1)
              = walk_calls (calls w) ++ [targets_path (self w)]) as Hlog
        by (subst w1; simpl; by rewrite walk_calls_app).
      destruct (register_all _ _).2 as [e|]; [done |].
      by rewrite after_discovery_walks.
Qed.

End Walks.

(** ** Calls that find their records rendered *)

Section Rendered.
Import PyDict PyDictFacts.
Context `{backend : RenderBackend}.
Variable fs : FileSystem.

Lemma elem_of_set {V} (d : PyDict.t V) k v x :
  x ∈ set k v d -> x = (k, v) \/ x ∈ d.
Proof.
  unfold PyDict.t in *. induction d as [|[k' v'] d IH]; simpl.
  - intros ->%list_elem_of_singleton. by left.
  - case_decide as Hk.
    + intros [-> | Hin]%elem_of_cons; [left; by subst | right; by right].
    + intros [-> | Hin]%elem_of_cons; [right; left |].
      destruct (IH Hin) as [-> | Hd]; [by left | right; by right].
Qed.

(** The dictionary built from a list of names holds records of the
    registry under requested names only. *)
Lemma select_elems target_names reg acc sel k t :
  select target_names reg acc = Ok sel ->
  (k, t) ∈ sel ->
  (k, t) ∈ acc \/ (k ∈ target_names /\ get k reg = Some t).
Proof.
  revert acc. induction target_names as [|m rest IH]; intros acc; simpl.
  - intros [= <-]. by left.
  - destruct (get m reg) as [tm|] eqn:Hm; [| done].
    intros Hsel Hin. destruct (IH _ Hsel Hin) as [Hacc | [Hk Hget]].
    + apply elem_of_set in Hacc as [[= -> ->] | Hacc]; [| by left].
      right. split; [left | done].
    + right. split; [by right | done].
Qed.

Lemma filter_unrendered_nil (sel : list (string * InventoryTarget)) :
  (forall k t, (k, t) ∈ sel -> parameters t <> []) ->
  filter (fun kt => unrendered kt.2) sel = [].
Proof.
  induction sel as [|[k t] sel IH]; intros Hall; [done |].
  rewrite filter_cons_False.
  - apply IH. intros k' t' Hin. apply (Hall k' t'). by right.
  - simpl. unfold unrendered.
    assert (parameters t <> []) by (apply (Hall k); left).
    by destruct (parameters t).
Qed.

Lemma resolved_rendered target_names ignore reg :
  requested_rendered target_names reg ->
  exists sel,
    resolved target_names ignore reg = Ok sel
    /\ filter (fun kt => unrendered kt.2) sel = [].
Proof.
  intros Hreq. destruct target_names as [|m rest].
  - exists reg. split; [done |]. by apply filter_unrendered_nil.
  - destruct (select_present (m :: rest) reg []) as (sel & Hsel & _).
    { intros n Hn. destruct (Hreq n Hn) as (t & -> & _). by eexists. }
    exists sel. unfold resolved. rewrite Hsel. split; [done |].
    apply filter_unrendered_nil. intros k t Hin.
    destruct (select_elems _ _ _ _ _ _ Hsel Hin) as [Hnil | [Hk Hget]];
      [by apply elem_of_nil in Hnil |].
    destruct (Hreq k Hk) as (t' & Ht' & Hrendered). congruence.
Qed.

Lemma get_targets_rendered target_names ignore w :
  targets (self w) <> [] ->
  requested_rendered target_names (targets (self w)) ->
  get_targets fs target_names ignore w = (Ok (targets (self w)), w).
Proof.
  intros Hne Hreq.
  rewrite get_targets_run, discover_nonempty
    by (by destruct (targets (self w))).
  destruct (resolved_rendered target_names ignore _ Hreq) as (sel & -> & Hnil).
  unfold dispatched. by rewrite Hnil.
Qed.

End Rendered.

Section Rendering.
Import PyDict PyDictFacts.
Context `{backend : RenderBackend}.
Variable fs : FileSystem.

Lemma get_mutated (refs : list string) mutation (reg : list (string * InventoryTarget)) k :
  get k (map (fun kt => if bool_decide (kt.1 ∈ refs)
                        then (kt.1, mutation kt.2) else kt) reg)
  = (if bool_decide (k ∈ refs) then mutation else id) <$> get k reg.
Proof.
  induction reg as [|[k' t] reg IH]; simpl; [done |].
  destruct (bool_decide (k' ∈ refs)) eqn:Hrefs; simpl;
    (destruct (decide (k' = k)) as [<- | Hne]; [by rewrite Hrefs | done]).
Qed.

Lemma elem_of_mutated (refs : list string) mutation (reg : list (string * InventoryTarget)) k t' :
  (k, t') ∈ map (fun kt => if bool_decide (kt.1 ∈ refs)
                           then (kt.1, mutation kt.2) else kt) reg ->
  exists t, (k, t) ∈ reg
            /\ t' = if bool_decide (k ∈ refs) then mutation t else t.
Proof.
  intros ([k0 t] & Heq & Hin)%list_elem_of_fmap. simpl in Heq.
  destruct (bool_decide (k0 ∈ refs)) eqn:Hrefs;
    injection Heq as -> ->; exists t; by rewrite Hrefs.
Qed.

Lemma unrendered_in_batch (sel : list (string * InventoryTarget)) k t :
  (k, t) ∈ sel -> parameters t = [] ->
  k ∈ keys (filter (fun kt => unrendered kt.2) sel).
Proof.
  intros Hin Hempty. unfold keys. apply list_elem_of_fmap.
  exists (k, t). split; [done |]. apply list_elem_of_filter. split; [| done].
  simpl. unfold unrendered. by rewrite Hempty.
Qed.

(** What a successful dispatch with a filling backend leaves behind. *)
Lemma dispatched_leaves_rendered (sel : list (string * InventoryTarget))
    ignore w1 reg w' :
  fills_parameters backend ->
  dispatched fs sel ignore w1 = (Ok reg, w') ->
  reg = targets (self w')
  /\ (forall k t, (k, t) ∈ sel -> get k (targets (self w1)) = Some t ->
                  exists t', get k reg = Some t' /\ parameters t' <> [])
  /\ (sel = targets (self w1) ->
      forall k t', (k, t') ∈ reg -> parameters t' <> []).
Proof.
  intros Hfills. unfold dispatched, PyDict.t in *.
  destruct (filter _ sel) as [|kt batch] eqn:Hbatch.
  - intros [= <- <-]. split_and!; [done | |].
    + intros k t Hin Hget. exists t. split; [done |]. intros Hempty.
      pose proof (unrendered_in_batch sel k t Hin Hempty) as Hk.
      rewrite Hbatch in Hk. by apply elem_of_nil in Hk.
    + intros -> k t Hin Hempty.
      pose proof (unrendered_in_batch _ k t Hin Hempty) as Hk.
      rewrite Hbatch in Hk. by apply elem_of_nil in Hk.
  - rewrite <- Hbatch.
    destruct (Hfills fs (self w1)
                (values (filter (fun kt => unrendered kt.2) sel)) ignore)
      as [Hok Hfill].
    rewrite Hok. intros [= <- <-]. simpl. split_and!; [done | |].
    + intros k t Hin Hget. rewrite get_mutated, Hget. simpl.
      eexists. split; [done |]. case_bool_decide as Hk; [apply Hfill |].
      simpl. intros Hempty. apply Hk. by apply (unrendered_in_batch sel k t).
    + intros -> k t' Hin.
      apply elem_of_mutated in Hin as (t & Hin & ->).
      case_bool_decide as Hk; [apply Hfill |].
      intros Hempty. apply Hk. by apply (unrendered_in_batch _ k t).
Qed.

Lemma dispatched_succeeds (sel : list (string * InventoryTarget)) ignore w1 :
  fills_parameters backend ->
  exists reg w', dispatched fs sel ignore w1 = (Ok reg, w').
Proof.
  intros Hfills. unfold dispatched, PyDict.t in *.
  destruct (filter _ sel) as [|kt batch]; [by eexists _, _ |].
  destruct (Hfills fs (self w1) (values (kt :: batch)) ignore) as [-> _].
  by eexists _, _.
Qed.

(** X8: when the registry is not empty and every requested record (every
    record, for an empty list of names) already has parameters,
    [get_targets] returns the registry and does nothing else: no walk,
    no call to the backend, no change to the inventory. *)
Theorem get_targets_noop_when_rendered target_names ignore w :
  targets (self w) <> [] ->
  requested_rendered target_names (targets (self w)) ->
  get_targets fs target_names ignore w = (Ok (targets (self w)), w).
Proof.
  intros Hne Hreq.
  rewrite get_targets_run, discover_nonempty
    by (by destruct (targets (self w))).
  destruct (resolved_rendered target_names ignore _ Hreq) as (sel & -> & Hnil).
  unfold dispatched. by rewrite Hnil.
Qed.

(** X9: an exception of the backend comes out of [get_target] and of
    the single-name [get_parameters] as it is, whatever the flag: for an
    unrendered record the backend is called once on that record, and its
    exception is the result. *)
Theorem render_failure_propagates target_name ignore w t mutation e :
  get target_name (targets (self w)) = Some t ->
  parameters t = [] ->
  render fs (self w) [t] ignore = (mutation, Some e) ->
  exists w',
    get_target fs target_name ignore w = (Raise e, w')
    /\ get_parameters fs (OneName target_name) ignore w = (Raise e, w')
    /\ calls w' = calls w ++ [EvRender [t] ignore].
Proof.
  intros Hget Hempty Hrender.
  assert (get_targets fs [target_name] ignore w
          = (Raise e, mkWorld (mutate_in_place [target_name] mutation (self w))
                        (calls w ++ [EvRender [t] ignore]))) as Hrun.
  { rewrite get_targets_run, discover_nonempty
      by (by destruct (targets (self w))).
    simpl. rewrite Hget. simpl. unfold dispatched, PyDict.t.
    rewrite filter_cons_True by (simpl; unfold unrendered; by rewrite Hempty).
    rewrite filter_nil. simpl. by rewrite Hrender. }
  exists (mkWorld (mutate_in_place [target_name] mutation (self w))
            (calls w ++ [EvRender [t] ignore])).
  split_and!; [| | done].
  - by rewrite get_target_run, Hrun.
  - unfold get_parameters. by rewrite bind_run, get_target_run, Hrun.
Qed.

(** X10: asking [get_target] for a name the registry lacks always
    fails: with the flag false by the lookup error on that one name,
    with the flag true by the [KeyError] of indexing the registry that
    [get_targets] returned. *)
Theorem get_target_absent target_name w w1 :
  discover_if_empty fs w = (Ok tt, w1) ->
  get target_name (targets (self w1)) = None ->
  get_target fs target_name false w
  = (Raise (TargetsNotFound {[ target_name ]}), w1)
  /\ get_target fs target_name true w = (Raise (KeyError target_name), w1).
Proof.
  intros Hdisc Hnone. rewrite !get_target_run, !get_targets_run, Hdisc.
  rewrite !(resolved_missing _ _ _ target_name) by (done || left).
  split.
  - do 3 f_equal. apply set_eq. intros x.
    rewrite elem_of_difference, !elem_of_list_to_set, list_elem_of_singleton,
      elem_of_singleton.
    apply get_None in Hnone. split; [by intros [? _] | by intros ->].
  - unfold dispatched. simpl. by rewrite Hnone.
Qed.

(** X11: with a backend that fills parameters, [get_target] on a name
    the registry holds returns a record with parameters, and that is the
    record the registry holds under the name afterwards. *)
Theorem get_target_returns_rendered target_name ignore w w1 :
  fills_parameters backend ->
  discover_if_empty fs w = (Ok tt, w1) ->
  is_Some (get target_name (targets (self w1))) ->
  exists t w',
    get_target fs target_name ignore w = (Ok t, w')
    /\ parameters t <> []
    /\ get target_name (targets (self w')) = Some t.
Proof.
  intros Hfills Hdisc [t0 Ht0].
  rewrite get_target_run, get_targets_run, Hdisc. simpl. rewrite Ht0. simpl.
  destruct (dispatched_succeeds [(target_name, t0)] ignore w1 Hfills)
    as (reg & w' & Hrun).
  rewrite Hrun.
  destruct (dispatched_leaves_rendered _ _ _ _ _ Hfills Hrun) as (-> & Hreq & _).
  destruct (Hreq target_name t0) as (t & Ht & Hrendered); [left | done |].
  exists t, w'. by rewrite Ht.
Qed.

(** X12: with a backend that fills parameters, a successful
    [get_targets] settles the request: repeating the call on the names
    it found, with either flag, returns the same registry and does
    nothing, neither a walk nor a call to the backend. *)
Theorem get_targets_again_is_noop target_names ignore ignore' w reg w' :
  fills_parameters backend ->
  get_targets fs target_names ignore w = (Ok reg, w') ->
  reg <> [] ->
  (forall n, n ∈ target_names -> is_Some (get n reg)) ->
  get_targets fs target_names ignore' w' = (Ok reg, w').
Proof.
  intros Hfills Hrun Hne Hpresent.
  destruct (get_targets_ok fs _ _ _ _ _ Hrun) as (Hreg & w1 & Hdisc & Hkeys).
  rewrite get_targets_run, Hdisc in Hrun.
  destruct (resolved target_names ignore (targets (self w1))) as [sel|e] eqn:Hsel;
    [| done].
  destruct (dispatched_leaves_rendered _ _ _ _ _ Hfills Hrun) as (_ & Hreq & Hall).
  rewrite Hreg in *. apply get_targets_rendered; [done |].
  destruct target_names as [|m rest]; simpl.
  - apply Hall. by injection Hsel as <-.
  - intros n Hn.
    assert (is_Some (get n (targets (self w1)))) as [t Ht].
    { apply get_is_Some. rewrite <- Hkeys. apply get_is_Some. by apply Hpresent. }
    simpl in Hsel.
    destruct (select_present (m :: rest) (targets (self w1)) []) as (sel' & Hsel' & Hget).
    { intros n' Hn'. apply get_is_Some. rewrite <- Hkeys. apply get_is_Some.
      by apply Hpresent. }
    simpl in Hsel'. rewrite Hsel' in Hsel. injection Hsel as <-.
    apply (Hreq n t); [| done].
    apply get_Some_elem. rewrite Hget. by rewrite decide_True.
Qed.

End Rendering.

(** ** The remaining accessors *)

Section Accessors.
Import PyDict PyDictFacts.
Context `{backend : RenderBackend}.
Variable fs : FileSystem.

(** X13: the list form of [get_parameters] returns a mapping only when
    [get_targets] hands it an empty registry, and the mapping is then
    empty; in every other case it raises.  It never returns the
    parameters of any target. *)
Theorem get_parameters_list_outcome target_names ignore w res w' :
  get_parameters fs (NameList target_names) ignore w = (Ok res, w')
  <-> res = ParametersByName []
      /\ get_targets fs target_names false w = (Ok [], w').
Proof.
  split.
  - intros Hrun.
    destruct (get_targets fs target_names false w) as [[reg|e] w2] eqn:Hget.
    + destruct reg as [|kt reg].
      * unfold get_parameters in Hrun. rewrite bind_run, Hget in Hrun.
        simpl in Hrun. run. by injection Hrun as <- <-.
      * destruct (get_parameters_list_raises fs target_names ignore w _ _ Hget)
          as (e & He & _); [done |]. congruence.
    + unfold get_parameters in Hrun. by rewrite bind_run, Hget in Hrun.
  - intros [-> Hget]. unfold get_parameters. rewrite bind_run, Hget. by run.
Qed.

(** X14: on a record that already has parameters, indexing the
    inventory and [get_target] agree: both return the record the
    registry holds and leave the world as it is. *)
Theorem getitem_of_rendered key ignore w t :
  get key (targets (self w)) = Some t ->
  parameters t <> [] ->
  __getitem__ key w = (Ok t, w)
  /\ get_target fs key ignore w = (Ok t, w).
Proof.
  intros Hget Hrendered. split.
  - unfold __getitem__, inventory, subscript. run. rewrite Hget. by run.
  - rewrite get_target_run, get_targets_rendered.
    + by rewrite Hget.
    + intros Hnil. by rewrite Hnil in Hget.
    + intros n ->%list_elem_of_singleton. by exists t.
Qed.

(** X16: when discovery is triggered by [get_targets] and two
    definition files derive one name, the conflict error comes out of
    [get_targets] itself, before any name is looked up and without any
    call to the backend. *)
Theorem get_targets_fresh_collision target_names ignore w :
  initialised (self w) = false ->
  targets (self w) = [] ->
  ~ NoDup (map fst (candidates (compose_target_name (self w))
                      (os_walk fs (targets_path (self w))))) ->
  exists n p other w',
    get_targets fs target_names ignore w
    = (Raise (ConflictingTargets n p other.(path)), w')
    /\ render_calls (calls w') = render_calls (calls w).
Proof.
  intros Hflag Hempty Hdup.
  destruct (initialise_fresh_duplicate fs w Hflag Hempty Hdup)
    as (n & p & other & w' & Hinit).
  exists n, p, other, w'.
  pose proof (discover_render_calls fs w) as Hlog.
  rewrite get_targets_run. rewrite discover_empty in * by (by rewrite Hempty).
  rewrite Hinit in *. done.
Qed.

(** X17: on a fresh inventory whose definition files derive distinct
    names, and with a backend that fills parameters, [get_targets] with
    no name discovers every file and returns a registry holding one
    record per file, each with parameters. *)
Theorem get_targets_all_on_fresh_inventory ignore w :
  fills_parameters backend ->
  initialised (self w) = false ->
  targets (self w) = [] ->
  let cands := candidates (compose_target_name (self w))
                 (os_walk fs (targets_path (self w))) in
  NoDup (map fst cands) ->
  exists reg w',
    get_targets fs [] ignore w = (Ok reg, w')
    /\ reg = targets (self w')
    /\ keys reg = map fst cands
    /\ forall k t, (k, t) ∈ reg -> parameters t <> [].
Proof.
  intros Hfills Hflag Hempty cands Hnd.
  destruct (initialise_spec fs w Hflag) as (flag & Hinit & _).
  fold cands in Hinit. rewrite Hempty in Hinit.
  change (@nil (string * InventoryTarget)) with (records []) in Hinit.
  rewrite (register_all_nodup [] cands) in Hinit by done. simpl in Hinit.
  rewrite get_targets_run, discover_empty, Hinit by (by rewrite Hempty).
  simpl.
  set (w1 := mkWorld _ _).
  destruct (dispatched_succeeds fs (records cands) ignore w1 Hfills)
    as (reg & w' & Hrun).
  exists reg, w'. rewrite Hrun.
  destruct (dispatched_leaves_rendered fs _ _ _ _ _ Hfills Hrun) as (Hreg & _ & Hall).
  destruct (dispatched_keys fs _ _ _ _ _ Hrun) as [_ Hkeys].
  split_and!; [done | done | | by apply Hall].
  rewrite Hkeys. subst w1. simpl. apply keys_records.
Qed.

End Accessors.


(** ** Repeated names *)

Section Repeated.
Import PyDict PyDictFacts.
Context `{backend : RenderBackend}.
Variable fs : FileSystem.




End Repeated.

(** ** The properties above on concrete inventories *)

Lemma stub_fills : fills_parameters stub_backend.
Proof. intros fs s batch ignore. split; [done |]. by intros t. Qed.

Lemma initialise_fresh_outcome_witness :
  let w := fresh_world true in
  let walk := os_walk same_basename_fs (targets_path (self w)) in
  let cands := candidates (compose_target_name (self w)) walk in
  ((exists b w', initialise same_basename_fs w = (Ok b, w'))
   <-> NoDup (map fst cands))
  /\ (NoDup (map fst cands) ->
      exists w',
        initialise same_basename_fs w = (Ok (initialised (self w')), w')
        /\ targets (self w') = records cands
        /\ initialised (self w') = match walk with [] => false | _ :: _ => true end).
Proof.
  apply (initialise_fresh_outcome same_basename_fs (fresh_world true));
    reflexivity.
Defined.

Lemma initialise_raises_only_conflicts_witness :
  let w' := (initialise same_basename_fs (fresh_world false)).2 in
  exists n p other,
    ConflictingTargets "a" "sub/a.yml" "a.yml"
    = ConflictingTargets n p other.(path)
    /\ PyDict.get n (targets (self w')) = Some other
    /\ (n, p) ∈ candidates false (os_walk same_basename_fs "inventory/targets").
Proof.
  apply (initialise_raises_only_conflicts same_basename_fs (fresh_world false)
           (ConflictingTargets "a" "sub/a.yml" "a.yml")
           (initialise same_basename_fs (fresh_world false)).2).
  reflexivity.
Defined.

Lemma initialise_registers_only_definition_files_witness :
  let w := fresh_world false in
  ("a", new_target "a" "a.yml") ∈ targets (self w)
  \/ exists e file ext,
       e ∈ os_walk single_target_fs (targets_path (self w))
       /\ file ∈ w_files e
       /\ derive_name (compose_target_name (self w))
            (OsPath.relpath_join (w_root e) file) file = ("a", ext)
       /\ (ext = ".yml" \/ ext = ".yaml")
       /\ new_target "a" "a.yml"
          = new_target "a" (OsPath.relpath_join (w_root e) file).
Proof.
  apply (initialise_registers_only_definition_files single_target_fs
           (fresh_world false) "a" (new_target "a" "a.yml")).
  apply list_elem_of_In. vm_compute. tauto.
Defined.

Lemma initialise_again_is_noop_witness :
  initialise (fun _ => None) discovered_single = (Ok true, discovered_single).
Proof.
  apply (initialise_again_is_noop single_target_fs (fresh_world false)
           discovered_single (fun _ => None)).
  reflexivity.
Defined.

Lemma compact_same_file_name_collides_witness :
  exists n p other w',
    initialise same_basename_fs (fresh_world false)
    = (Raise (ConflictingTargets n p other.(path)), w').
Proof.
  apply (compact_same_file_name_collides same_basename_fs (fresh_world false)
           0 1 (WalkEntry [] ["sub"] ["a.yml"]) (WalkEntry ["sub"] [] ["a.yml"])
           "a.yml" "a" ".yml");
    try reflexivity; try lia; try (apply list_elem_of_In; simpl; tauto).
  by left.
Defined.

Lemma get_targets_noop_when_rendered_witness :
  get_targets (backend := stub_backend) single_target_fs ["a"] false rendered_single
  = (Ok (targets (self rendered_single)), rendered_single).
Proof.
  apply (get_targets_noop_when_rendered (backend := stub_backend)
           single_target_fs ["a"] false rendered_single).
  - discriminate.
  - intros n Hn. apply list_elem_of_In in Hn. simpl in Hn.
    destruct Hn as [<- | []]. eexists. split; [reflexivity | discriminate].
Defined.

Lemma render_failure_propagates_witness :
  exists w',
    get_target (backend := failing_backend) single_target_fs "a" true
      discovered_single
    = (Raise (InvalidTargetError "class not found"), w')
    /\ get_parameters (backend := failing_backend) single_target_fs
         (OneName "a") true discovered_single
       = (Raise (InvalidTargetError "class not found"), w')
    /\ calls w'
       = calls discovered_single ++ [EvRender [new_target "a" "a.yml"] true].
Proof.
  apply (render_failure_propagates (backend := failing_backend) single_target_fs
           "a" true discovered_single (new_target "a" "a.yml") id
           (InvalidTargetError "class not found")); reflexivity.
Defined.

Lemma get_target_absent_witness :
  get_target (backend := stub_backend) single_target_fs "missing" false
    (fresh_world false)
  = (Raise (TargetsNotFound {[ "missing" ]}), discovered_single)
  /\ get_target (backend := stub_backend) single_target_fs "missing" true
       (fresh_world false)
     = (Raise (KeyError "missing"), discovered_single).
Proof.
  apply (get_target_absent (backend := stub_backend) single_target_fs
           "missing" (fresh_world false) discovered_single); reflexivity.
Defined.

Lemma get_target_returns_rendered_witness :
  exists t w',
    get_target (backend := stub_backend) single_target_fs "a" false
      (fresh_world false) = (Ok t, w')
    /\ parameters t <> []
    /\ PyDict.get "a" (targets (self w')) = Some t.
Proof.
  apply (get_target_returns_rendered (backend := stub_backend) single_target_fs
           "a" false (fresh_world false) discovered_single).
  - exact stub_fills.
  - reflexivity.
  - vm_compute. eauto.
Defined.

Lemma get_targets_again_is_noop_witness :
  get_targets (backend := stub_backend) single_target_fs ["a"] true rendered_single
  = (Ok (targets (self rendered_single)), rendered_single).
Proof.
  apply (get_targets_again_is_noop (backend := stub_backend) single_target_fs
           ["a"] false true (fresh_world false)
           (targets (self rendered_single)) rendered_single).
  - exact stub_fills.
  - reflexivity.
  - discriminate.
  - intros n Hn. apply list_elem_of_In in Hn. simpl in Hn.
    destruct Hn as [<- | []]. vm_compute. eauto.
Defined.

Lemma getitem_of_rendered_witness :
  __getitem__ "a" rendered_single
  = (Ok (stub_render (new_target "a" "a.yml")), rendered_single)
  /\ get_target (backend := stub_backend) single_target_fs "a" false
       rendered_single
     = (Ok (stub_render (new_target "a" "a.yml")), rendered_single).
Proof.
  apply (getitem_of_rendered (backend := stub_backend) single_target_fs
           "a" false rendered_single (stub_render (new_target "a" "a.yml")));
    [reflexivity | discriminate].
Defined.


Lemma get_targets_fresh_collision_witness :
  exists n p other w',
    get_targets (backend := stub_backend) same_basename_fs ["a"] false
      (fresh_world false)
    = (Raise (ConflictingTargets n p other.(path)), w')
    /\ render_calls (calls w') = render_calls (calls (fresh_world false)).
Proof.
  apply (get_targets_fresh_collision (backend := stub_backend) same_basename_fs
           ["a"] false (fresh_world false)); [reflexivity | reflexivity |].
  apply (repeated_name_not_NoDup _ 0 1 "a" "a.yml" "sub/a.yml");
    [lia | reflexivity | reflexivity].
Defined.

Lemma get_targets_all_on_fresh_inventory_witness :
  exists reg w',
    get_targets (backend := stub_backend) same_basename_fs [] false
      (fresh_world true) = (Ok reg, w')
    /\ reg = targets (self w')
    /\ PyDict.keys reg = ["a"; "sub.a"]
    /\ forall k t, (k, t) ∈ reg -> parameters t <> [].
Proof.
  apply (get_targets_all_on_fresh_inventory (backend := stub_backend)
           same_basename_fs false (fresh_world true));
    [exact stub_fills | reflexivity | reflexivity |].
  apply (bool_decide_unpack _). vm_compute. exact I.
Defined.



(** * Collisions, batches and parameters *)

(** ** The first collision *)




(** ** The batch of a call *)

Section Submitted.
Import PyDict PyDictFacts.
Context `{backend : RenderBackend}.
Variable fs : FileSystem.

Lemma get_app {V} (d1 d2 : list (string * V)) k :
  get k (d1 ++ d2) = match get k d1 with Some v => Some v | None => get k d2 end.
Proof.
  induction d1 as [|[k' v'] d1 IH]; simpl; [done |].
  by case_decide.
Qed.

Lemma set_same {V} (d : list (string * V)) k v :
  get k d = Some v -> set k v d = d.
Proof.
  induction d as [|[k' v'] d IH]; simpl; [done |].
  case_decide as Hk; [by intros [= ->] | intros Hget; by rewrite IH].
Qed.

(** The dictionary built from names that the registry all holds: one
    entry per name, in the order of first occurrence. *)
Lemma select_requested target_names reg (acc : list (string * InventoryTarget)) :
  Forall (fun n => is_Some (get n reg)) target_names ->
  (forall k t, get k acc = Some t -> get k reg = Some t) ->
  select target_names reg acc
  = Ok (acc ++ omap (fun n => pair n <$> get n reg)
                 (first_occurrences (keys acc) target_names)).
Proof.
  revert acc. induction target_names as [|n rest IH]; intros acc Hall Hacc; simpl.
  - by rewrite app_nil_r.
  - apply Forall_cons in Hall as [[t Ht] Hall]. rewrite Ht.
    destruct (decide (n ∈ keys acc)) as [Hin | Hfresh].
    + apply get_is_Some in Hin as [t' Ht'].
      assert (t' = t) as -> by (apply Hacc in Ht'; congruence).
      rewrite (set_same acc n t Ht'). by apply IH.
    + rewrite (set_fresh acc n t Hfresh). rewrite IH; [| done |].
      * simpl. rewrite Ht. simpl. rewrite <- app_assoc.
        unfold keys. by rewrite map_app.
      * intros k t'. rewrite get_app.
        destruct (get k acc) as [t''|] eqn:Hk; [intros [= <-]; by apply Hacc |].
        simpl. case_decide as Hkn; [| done]. intros [= <-]. by subst.
Qed.

(** [resolve] against the records a request is about. *)
Lemma resolved_requested target_names ignore reg :
  match resolved target_names ignore reg with
  | Ok sel => sel = requested_records target_names reg
  | Raise _ => requested_records target_names reg = []
  end.
Proof.
  destruct target_names as [|m rest]; [done |].
  unfold resolved, requested_records.
  case_bool_decide as Hall.
  - by rewrite (select_requested (m :: rest) reg [] Hall).
  - destruct (select (m :: rest) reg []) as [sel|e] eqn:Hsel.
    + exfalso. apply Hall. apply Forall_forall. intros n Hn.
      destruct (get n reg) eqn:Hget; [by eexists |].
      destruct (select_missing _ _ [] _ Hn Hget) as [k Hk]. congruence.
    + destruct (select_raises_KeyError _ _ _ _ Hsel) as [k ->].
      by destruct ignore.
Qed.

Lemma dispatched_calls sel ignore w1 :
  calls (dispatched fs sel ignore w1).2
  = calls w1 ++ match filter unrendered (values sel) with
                | [] => []
                | (_ :: _) as batch => [EvRender batch ignore]
                end.
Proof.
  unfold dispatched. rewrite <- values_filter_unrendered.
  destruct (filter _ sel) as [|kt batch]; simpl; [by rewrite app_nil_r | done].
Qed.

(** C6, as amended: the records a call to [get_targets] hands to the
    backend are exactly the records with empty parameters among those
    the request is about: the whole registry for an empty list of
    names, the requested records when the registry holds every requested
    name, and none when a requested name is missing or discovery fails.
    They go in one call, with the flag of the request; when there is no
    such record the backend is not called. *)
Theorem get_targets_submits_unrendered target_names ignore w :
  let w1 := (discover_if_empty fs w).2 in
  let w' := (get_targets fs target_names ignore w).2 in
  let submitted :=
    match (discover_if_empty fs w).1 with
    | Ok _ =>
        filter unrendered
          (values (requested_records target_names (targets (self w1))))
    | Raise _ => []
    end in
  calls w'
  = calls w1 ++ match submitted with
                | [] => []
                | _ :: _ => [EvRender submitted ignore]
                end
  /\ render_calls (calls w')
     = render_calls (calls w) ++ match submitted with
                                 | [] => []
                                 | _ :: _ => [submitted]
                                 end
  /\ (forall t, t ∈ submitted -> parameters t = []).
Proof.
  intros w1 w' submitted.
  assert (calls w'
          = calls w1 ++ match submitted with
                        | [] => []
                        | _ :: _ => [EvRender submitted ignore]
                        end) as Hcalls.
  { subst w1 w' submitted. rewrite get_targets_run.
    destruct (discover_if_empty fs w) as [[[]|e] w1]; simpl;
      [| by rewrite app_nil_r].
    pose proof (resolved_requested target_names ignore (targets (self w1))) as Hres.
    destruct (resolved _ _ _) as [sel|e]; simpl.
    - subst sel. rewrite dispatched_calls.
      by destruct (filter unrendered _).
    - rewrite Hres. simpl. by rewrite app_nil_r. }
  split_and!; [done | |].
  - rewrite Hcalls, render_calls_app. subst w1.
    rewrite discover_render_calls. f_equal. by destruct submitted.
  - subst submitted. intros t.
    destruct (discover_if_empty fs w).1; [| by intros ?%elem_of_nil].
    intros [Ht _]%list_elem_of_filter. unfold unrendered in Ht.
    by destruct (parameters t).
Qed.

End Submitted.

(** With [a] found and unrendered, asking for [a] and for a missing
    name with the flag true succeeds and submits nothing. *)
Lemma found_record_not_submitted :
  ~ spec_found_unrendered_are_submitted.
Proof.
  intros Hspec.
  specialize (Hspec stub_backend single_target_fs ["a"; "missing"] true
                (fresh_world false) discovered_single
                (targets (self discovered_single)) discovered_single
                eq_refl eq_refl).
  vm_compute in Hspec. discriminate Hspec.
Qed.

(** ** Parameters read twice *)

Section ParametersTwice.
Import PyDict PyDictFacts.
Context `{backend : RenderBackend}.
Variable fs : FileSystem.


End ParametersTwice.



(** ** Walks that find nothing *)

Lemma get_targets_initialised_no_walk `{backend : RenderBackend}
    fs target_names ignore w :
  initialised (self w) = true ->
  walk_calls (calls (get_targets fs target_names ignore w).2)
  = walk_calls (calls w).
Proof.
  intros Hflag. rewrite get_targets_run.
  destruct (PyDict.truthy (targets (self w))) eqn:Hreg.
  - rewrite discover_nonempty by done. apply after_discovery_walks.
  - rewrite discover_empty, initialise_done by done. apply after_discovery_walks.
Qed.

(** C10, as amended: for an inventory that is not yet initialised.  When
    the walk of the targets path yields no entry at all, as for a
    missing path, [initialise] returns false and leaves the flag false,
    and every later [get_targets] on the still empty registry walks the
    targets path again (and, while the walk stays empty, leaves the
    inventory as it was, so that the next call walks once more).  When
    the targets path is an existing directory that holds nothing, the
    walk yields the entry of that directory: [initialise] sets the flag
    and returns true, and no later [get_targets] walks again. *)
Theorem initialise_without_entries `{backend : RenderBackend} fs fs0 w :
  initialised (self w) = false ->
  os_walk fs (targets_path (self w)) = [] ->
  fs0 (targets_path (self w)) = Some (Dir []) ->
  let w1 := mkWorld (self w) (calls w ++ [EvWalk (targets_path (self w))]) in
  let w0 := mkWorld (set_initialised true (self w))
              (calls w ++ [EvWalk (targets_path (self w))]) in
  (initialise fs w = (Ok false, w1)
   /\ initialised (self w1) = false
   /\ (targets (self w) = [] ->
       forall w' fs' target_names ignore,
         self w' = self w ->
         let w2 := (get_targets fs' target_names ignore w').2 in
         walk_calls (calls w2) = walk_calls (calls w') ++ [targets_path (self w)]
         /\ (os_walk fs' (targets_path (self w)) = [] -> self w2 = self w)))
  /\ (initialise fs0 w = (Ok true, w0)
      /\ initialised (self w0) = true
      /\ forall w' fs' target_names ignore,
           self w' = self w0 ->
           walk_calls (calls (get_targets fs' target_names ignore w').2)
           = walk_calls (calls w')).
Proof.
  intros Hflag Hwalk Hdir w1 w0. split; split_and!; [ | done | | | done | ].
  - unfold initialise. run. rewrite Hflag. run. rewrite Hwalk. run.
    by rewrite Hflag.
  - intros Hempty w' fs' target_names ignore Hself.
    rewrite <- Hself in *. by apply get_targets_rescans.
  - unfold initialise, os_walk. run. rewrite Hflag. run. rewrite Hdir. run.
    subst w0. by destruct (self w).
  - intros w' fs' target_names ignore Hself.
    apply get_targets_initialised_no_walk. by rewrite Hself.
Qed.

Lemma initialise_without_entries_witness :
  let fs : FileSystem := fun _ => None in
  let fs0 := mount "inventory/targets" (Dir []) in
  let w := fresh_world false in
  let w1 := mkWorld (self w) (calls w ++ [EvWalk (targets_path (self w))]) in
  let w0 := mkWorld (set_initialised true (self w))
              (calls w ++ [EvWalk (targets_path (self w))]) in
  (initialise fs w = (Ok false, w1)
   /\ initialised (self w1) = false
   /\ (targets (self w) = [] ->
       forall w' fs' target_names ignore,
         self w' = self w ->
         let w2 := (get_targets (backend := stub_backend) fs' target_names ignore w').2 in
         walk_calls (calls w2) = walk_calls (calls w') ++ [targets_path (self w)]
         /\ (os_walk fs' (targets_path (self w)) = [] -> self w2 = self w)))
  /\ (initialise fs0 w = (Ok true, w0)
      /\ initialised (self w0) = true
      /\ forall w' fs' target_names ignore,
           self w' = self w0 ->
           walk_calls (calls (get_targets (backend := stub_backend)
                                fs' target_names ignore w').2)
           = walk_calls (calls w')).
Proof.
  apply (initialise_without_entries (backend := stub_backend)
           (fun _ => None) (mount "inventory/targets" (Dir []))
           (fresh_world false)); reflexivity.
Defined.

(** A key of two code points unpacks, whatever their encoded length. *)
Example get_parameters_list_two_code_points :
  (get_parameters (backend := stub_backend)
     (mount "inventory/targets" (Dir [("日本.yml", File)]))
     (NameList []) false (fresh_world false)).1
  = Raise (AttributeError "parameters").
Proof. reflexivity. Qed.
